(** * lsopentmf: listing OpenTMF drivers and devices

    A shallow embedding of [src/lsopentmf.c] and the properties of its
    command line, its output formats, its URL buffer and its use of the
    OpenTMF library.

    Conventions of the embedding:
    - a C string is a [string]; [strlen] is [String.length];
    - [size_t] values are [Z] with the wrap-around of a 64-bit word
      written out, [int] and [unsigned] values that the program only
      prints are [Z] and [N];
    - the OpenTMF library is an environment: a record of functions over
      an abstract library state, so that every theorem holds for every
      behaviour of the library;
    - a run yields the ordered list of what the process did (writes on
      the two streams, calls into the library) and either returns an
      exit status or stops at an undefined operation of C (a write past
      the end of the URL buffer, a line length that does not fit [int]). *)

From Stdlib Require Import List ZArith NArith Lia Bool Arith.
From Stdlib Require Import Strings.String Strings.Ascii Numbers.DecimalString.
From Equations Require Import Equations.
Import ListNotations.

Local Open Scope list_scope.
Local Open Scope string_scope.

(** ** C strings *)

Module CString.

Definition nl : ascii := "010"%char.
Definition tab : ascii := "009"%char.
Definition NL : string := String nl "".
Definition TAB : string := String tab "".

(** [strchr s c]: offset of the first [c] in [s], [None] for the null
    pointer. *)
Fixpoint strchr (s : string) (c : ascii) : option nat :=
  match s with
  | "" => None
  | String a s' =>
      if Ascii.eqb a c then Some 0
      else match strchr s' c with
           | Some i => Some (S i)
           | None => None
           end
  end.

(** [advance n s] is the string at [s + n]. *)
Fixpoint advance (n : nat) (s : string) : string :=
  match n, s with
  | O, _ => s
  | S n', String _ s' => advance n' s'
  | S _, "" => ""
  end.

(** [precision n s]: what [%.*s] prints of [s] with precision [n]. *)
Definition precision (n : nat) (s : string) : string := substring 0 n s.

(** [%u] and [%d]. *)
Definition fmt_u (n : N) : string := NilZero.string_of_uint (N.to_uint n).
Definition fmt_d (z : Z) : string := NilZero.string_of_int (Z.to_int z).

Definition INT_MAX : Z := 2147483647.

Lemma strchr_bound s c i : strchr s c = Some i -> i < String.length s.
Proof.
  revert i; induction s as [|a s IH]; simpl; intros i H; [discriminate|].
  destruct (Ascii.eqb a c).
  - injection H as <-. lia.
  - destruct (strchr s c) as [j|]; [|discriminate].
    injection H as <-. specialize (IH j eq_refl). lia.
Qed.

Lemma advance_length n s : String.length (advance n s) = String.length s - n.
Proof.
  revert s; induction n as [|n IH]; intros [|a s]; simpl; auto with arith.
Qed.

Lemma append_assoc (a b c : string) : (a ++ b) ++ c = a ++ (b ++ c).
Proof. induction a; simpl; congruence. Qed.

Lemma append_nil_r (a : string) : a ++ "" = a.
Proof. induction a; simpl; congruence. Qed.

Lemma append_length (a b : string) :
  String.length (a ++ b) = String.length a + String.length b.
Proof. induction a; simpl; congruence. Qed.

End CString.
Import CString.

(** ** [print_multi_line]: the strings it hands to [printf]

    The loop of the source is a [do ... while] entered only when [strchr]
    has found a line break, and whose condition is [strchr] again: it is
    the loop below, which tests [strchr] before each round.  [length] is
    an [int] in the source; a line whose length does not fit stops the
    run ([None] in the second component). *)

Definition inspect {A : Type} (a : A) : {b : A | a = b} := exist _ a eq_refl.

Equations? indent_lines (text : string) : list string * option string
  by wf (String.length text) lt :=
  indent_lines text with inspect (strchr text nl) := {
    | exist _ (Some new_line) _ =>
        let length := S new_line in
        if (INT_MAX <? Z.of_nat length)%Z then ([], None)
        else
          let r := indent_lines (advance length text) in
          (("  " ++ precision length text) :: fst r, snd r)
    | exist _ None _ => ([], Some text) }.
Proof.
  change (String.length (advance (S new_line) text) < String.length text).
  rewrite advance_length. apply strchr_bound in e. lia.
Qed.

(** The whole function: the list of strings printed, and whether it
    returned. *)
Definition print_multi_line_out (label text : string) : list string * bool :=
  match strchr text nl with
  | Some _ =>
      let r := indent_lines text in
      match snd r with
      | Some rest =>
          let last := if String.eqb rest "" then []
                      else ["  " ++ rest ++ NL] in
          ((label ++ ":" ++ NL) :: List.app (fst r) last, true)
      | None => ((label ++ ":" ++ NL) :: fst r, false)
      end
  | None => ([label ++ ": " ++ text ++ NL], true)
  end.

Example pml_a_b :
  print_multi_line_out "Label" ("a" ++ NL ++ "b")
  = (["Label:" ++ NL; "  a" ++ NL; "  b" ++ NL], true).
Proof. reflexivity. Qed.

(** ** The C library's option scanner

    [getopt_long] belongs to the C library, not to the program.  This is
    its GNU behaviour as the program uses it: [opterr] is left at 1 (the
    scanner itself reports a bad option on standard error), the option
    string starts with neither [+] nor [-] and [POSIXLY_CORRECT] is not
    set, so words that are not options are skipped (permuted to the end)
    and scanning goes on behind them; [--] ends the options.  A scan is
    the list of values the successive calls return before -1. *)

Module Getopt.

Inductive has_arg := no_argument | required_argument | optional_argument.

Record option_ := Option_
  { name : string; arg : has_arg; val : ascii }.

(** What the scanner writes on standard error before it returns ['?']. *)
Inductive diagnostic :=
  | Invalid_option (c : ascii)
  | Unrecognized_option (word : string)
  | Ambiguous_option (word : string)
  | Argument_not_allowed (option : string).

(** One call: the value returned and the diagnostic written, if any. *)
Record step := Step { code : ascii; said : option diagnostic }.

Definition question : ascii := "?"%char.
Definition bad (d : diagnostic) : step := Step question (Some d).
Definition good (c : ascii) : step := Step c None.

Section Scan.
Variable optstring : string.
Variable longopts : list option_.

(** A letter of a word that starts with one dash.  No letter of the
    program's option string takes an argument. *)
Definition short_option (c : ascii) : step :=
  match strchr optstring c with
  | Some _ =>
      if Ascii.eqb c ":" || Ascii.eqb c ";" then bad (Invalid_option c)
      else good c
  | None => bad (Invalid_option c)
  end.

Fixpoint short_options (letters : string) : list step :=
  match letters with
  | "" => []
  | String c rest => short_option c :: short_options rest
  end.

(** The part of a long option before [=]. *)
Definition name_part (w : string) : string :=
  match strchr w "=" with
  | Some i => precision i w
  | None => w
  end.

Definition found (w : string) (o : option_) : step :=
  match strchr w "=", arg o with
  | Some _, no_argument => bad (Argument_not_allowed (name o))
  | _, _ => good (val o)
  end.

Definition same_option (o p : option_) : bool :=
  match arg o, arg p with
  | no_argument, no_argument
  | required_argument, required_argument
  | optional_argument, optional_argument => Ascii.eqb (val o) (val p)
  | _, _ => false
  end.

(** A word that starts with two dashes, without them: an exact name
    wins, otherwise an abbreviation that selects one option. *)
Definition long_option (w : string) : step :=
  let n := name_part w in
  match filter (fun o => String.eqb (name o) n) longopts with
  | o :: _ => found w o
  | [] =>
      match filter (fun o => prefix n (name o)) longopts with
      | [] => bad (Unrecognized_option w)
      | o :: others =>
          if forallb (same_option o) others then found w o
          else bad (Ambiguous_option w)
      end
  end.

(** An option word starts with a dash and is not the lone dash. *)
Definition option_word (w : string) : bool :=
  match w with
  | String "-" (String _ _) => true
  | _ => false
  end.

Fixpoint scan (words : list string) : list step :=
  match words with
  | [] => []
  | w :: rest =>
      if String.eqb w "--" then []
      else
        match w with
        | String "-" (String "-" long) => long_option long :: scan rest
        | String "-" (String c letters) =>
            List.app (short_options (String c letters)) (scan rest)
        | _ => scan rest
        end
  end.

(** [getopt_long(argc, argv, ...)] called until it returns -1;
    [argv[0]] is the program's name. *)
Definition getopt_long (argv : list string) : list step :=
  scan (tl argv).

End Scan.
End Getopt.

(** ** The OpenTMF library *)

(** Modelled from the spec: the info records of [opentmf.h], which is not
    among the sources, with the fields the program reads.  The version
    numbers are printed with [%u] and are unsigned; the non-free flag is
    only tested. *)
Record opentmf_version := Version
  { major : N; minor : N; patch : N; extra : string }.

Record opentmf_driver_info := Driver_info
  { name : string;
    version : opentmf_version;
    description : string;
    authors : string;
    license : string;
    non_free : bool }.

Record opentmf_device_info := Device_info
  { dev_name : string; serial : string }.

(** Modelled from the spec: the functions [opentmf.h] declares, which
    the program calls and does not define.  [L] is the state of the
    library and of the instruments behind it; a call reads it and leaves
    a new one.  A call with an output parameter returns the status and
    what it stored. *)
Record opentmf (L context handle : Type) := OpenTMF
  { OPENTMF_SUCCESS : Z;
    opentmf_get_status_str : Z -> string;
    opentmf_init : L -> Z * context * L;
    opentmf_exit : context -> L -> Z * L;
    opentmf_get_driver_list : context -> L -> Z * list string * L;
    opentmf_free_driver_list : context -> list string -> L -> Z * L;
    opentmf_open : context -> string -> L -> Z * handle * L;
    opentmf_close : handle -> L -> L;
    opentmf_drv_get_info : handle -> L -> opentmf_driver_info;
    opentmf_drv_get_device_list : handle -> L -> Z * list string * L;
    opentmf_drv_free_device_list : handle -> list string -> L -> Z * L;
    opentmf_dev_get_info : handle -> L -> opentmf_device_info }.

Arguments OPENTMF_SUCCESS {L context handle}.
Arguments opentmf_get_status_str {L context handle}.
Arguments opentmf_init {L context handle}.
Arguments opentmf_exit {L context handle}.
Arguments opentmf_get_driver_list {L context handle}.
Arguments opentmf_free_driver_list {L context handle}.
Arguments opentmf_open {L context handle}.
Arguments opentmf_close {L context handle}.
Arguments opentmf_drv_get_info {L context handle}.
Arguments opentmf_drv_get_device_list {L context handle}.
Arguments opentmf_drv_free_device_list {L context handle}.
Arguments opentmf_dev_get_info {L context handle}.

(** ** What a run does *)

Inductive stream := Stdout | Stderr.

Inductive event (handle : Type) :=
  | Print (fd : stream) (s : string)
  | Getopt_says (d : Getopt.diagnostic)
  | Call_init (r : Z)
  | Call_exit (r : Z)
  | Call_get_driver_list (r : Z) (list : list string)
  | Call_free_driver_list (r : Z)
  | Call_open (url : string) (r : Z) (h : handle)
  | Call_close (h : handle)
  | Call_get_device_list (drv : handle) (r : Z) (list : list string)
  | Call_free_device_list (drv : handle) (r : Z).

Arguments Print {handle}.
Arguments Getopt_says {handle}.
Arguments Call_init {handle}.
Arguments Call_exit {handle}.
Arguments Call_get_driver_list {handle}.
Arguments Call_free_driver_list {handle}.
Arguments Call_open {handle}.
Arguments Call_close {handle}.
Arguments Call_get_device_list {handle}.
Arguments Call_free_device_list {handle}.

(** The end of a computation: it goes on with a value, the process has
    called [exit], or it has reached an operation C leaves undefined. *)
Inductive outcome (L handle A : Type) :=
  | Ret (a : A) (s : L) (t : list (event handle))
  | Exit (status : Z) (s : L) (t : list (event handle))
  | Undefined (t : list (event handle)).

Arguments Ret {L handle A}.
Arguments Exit {L handle A}.
Arguments Undefined {L handle A}.

Definition trace_of {L handle A} (o : outcome L handle A) : list (event handle) :=
  match o with
  | Ret _ _ t | Exit _ _ t | Undefined t => t
  end.

(** The text written on one stream by the program's own [printf] calls. *)
Fixpoint printed {handle} (fd : stream) (t : list (event handle)) : string :=
  match t with
  | [] => ""
  | Print Stdout s :: t' =>
      match fd with Stdout => s ++ printed fd t' | Stderr => printed fd t' end
  | Print Stderr s :: t' =>
      match fd with Stderr => s ++ printed fd t' | Stdout => printed fd t' end
  | _ :: t' => printed fd t'
  end.

Definition EXIT_SUCCESS : Z := 0.
Definition EXIT_FAILURE : Z := 1.
Definition VERBOSE_MAX : Z := 2.

(** [size_t] arithmetic. *)
Definition size_t (z : Z) : Z := (z mod 2 ^ 64)%Z.

(** ** The program *)

Section Program.

Context {L context handle : Type}.
Variable lib : opentmf L context handle.

(** The version string the build defines. *)
Variable PACKAGE_VERSION : string.

Abbreviation SUCCESS := (OPENTMF_SUCCESS lib).
Abbreviation trace := (list (event handle)).

(** *** A monad for the run: library state in, outcome out *)

Definition M (A : Type) : Type := L -> outcome L handle A.

Definition ret {A} (a : A) : M A := fun s => Ret a s [].

Definition prepend {A} (t : trace) (o : outcome L handle A) : outcome L handle A :=
  match o with
  | Ret a s t' => Ret a s (t ++ t')%list
  | Exit c s t' => Exit c s (t ++ t')%list
  | Undefined t' => Undefined (t ++ t')%list
  end.

Definition bind {A B} (m : M A) (k : A -> M B) : M B :=
  fun s =>
    match m s with
    | Ret a s' t => prepend t (k a s')
    | Exit c s' t => Exit c s' t
    | Undefined t => Undefined t
    end.

Notation "x <- m ;; k" := (bind m (fun x => k))
  (at level 61, m at next level, right associativity).
Notation "' pat <- m ;; k" := (bind m (fun x => match x with pat => k end))
  (at level 61, pat pattern, m at next level, right associativity).
Notation "m ;; k" := (bind m (fun _ => k))
  (at level 61, right associativity).

Definition emit (e : event handle) : M unit := fun s => Ret tt s [e].
Definition exit {A} (status : Z) : M A := fun s => Exit status s [].
Definition undefined {A} : M A := fun _ => Undefined [].

Definition printf (s : string) : M unit := emit (Print Stdout s).
Definition eprintf (s : string) : M unit := emit (Print Stderr s).

Fixpoint printf_each (l : list string) : M unit :=
  match l with
  | [] => ret tt
  | s :: l' => printf s ;; printf_each l'
  end.

(** *** Calls into the library *)

Definition init : M (Z * context) :=
  fun s => let '(r, ctx, s') := opentmf_init lib s in
           Ret (r, ctx) s' [Call_init r].

Definition finalize (ctx : context) : M Z :=
  fun s => let '(r, s') := opentmf_exit lib ctx s in
           Ret r s' [Call_exit r].

Definition get_driver_list (ctx : context) : M (Z * list string) :=
  fun s => let '(r, l, s') := opentmf_get_driver_list lib ctx s in
           Ret (r, l) s' [Call_get_driver_list r l].

Definition free_driver_list (ctx : context) (l : list string) : M Z :=
  fun s => let '(r, s') := opentmf_free_driver_list lib ctx l s in
           Ret r s' [Call_free_driver_list r].

Definition open (ctx : context) (url : string) : M (Z * handle) :=
  fun s => let '(r, h, s') := opentmf_open lib ctx url s in
           Ret (r, h) s' [Call_open url r h].

Definition close (h : handle) : M unit :=
  fun s => Ret tt (opentmf_close lib h s) [Call_close h].

Definition drv_get_info (drv : handle) : M opentmf_driver_info :=
  fun s => Ret (opentmf_drv_get_info lib drv s) s [].

Definition dev_get_info (dev : handle) : M opentmf_device_info :=
  fun s => Ret (opentmf_dev_get_info lib dev s) s [].

Definition drv_get_device_list (drv : handle) : M (Z * list string) :=
  fun s => let '(r, l, s') := opentmf_drv_get_device_list lib drv s in
           Ret (r, l) s' [Call_get_device_list drv r l].

Definition drv_free_device_list (drv : handle) (l : list string) : M Z :=
  fun s => let '(r, s') := opentmf_drv_free_device_list lib drv l s in
           Ret r s' [Call_free_device_list drv r].

(** The tail shared by the error messages: ["%s (%d)\n"] with the
    status text and the code. *)
Definition status_text (r : Z) : string :=
  opentmf_get_status_str lib r ++ " (" ++ fmt_d r ++ ")" ++ NL.

(** *** [print_version], [print_help], [print_multi_line] *)

Definition version_text : string :=
  "lsopentmf (opentmf-utils) " ++ PACKAGE_VERSION ++ NL.

Definition print_version : M unit := printf version_text.

Definition help_text : string :=
  "Usage: lsopentmf [options]" ++ NL ++
  "List OpenTMF drivers" ++ NL ++
  "  -d, --devices" ++ NL ++
  "    Show available devices per driver" ++ NL ++
  "  -v, --verbose" ++ NL ++
  "    Show more driver details, may be given multiple times" ++ NL ++
  "  -h, --help" ++ NL ++
  "    Show usage and help" ++ NL ++
  "  -V, --version" ++ NL ++
  "    Show program version" ++ NL.

Definition print_help : M unit := printf help_text.

Definition print_multi_line (label text : string) : M unit :=
  let '(out, returned) := print_multi_line_out label text in
  printf_each out ;;
  if returned : bool then ret tt else undefined.

(** *** The URL buffer

  [url_size] is the size of the allocation, [url] the C string it
  holds.  A store at an offset that is not below [url_size] is
  undefined. *)

(** [url[i] = '\0'] *)
Definition terminate_at (url_size : Z) (i : nat) (url : string) : M string :=
  if (Z.of_nat i <? url_size)%Z then ret (precision i url) else undefined.

(** [strcat(url, src)]: the last byte stored is the terminator, at
    offset [strlen(url) + strlen(src)]. *)
Definition strcat (url_size : Z) (url src : string) : M string :=
  if (Z.of_nat (String.length url + String.length src) <? url_size)%Z
  then ret (url ++ src) else undefined.

(** *** [main] *)

Definition optstring : string := "dvhV".

Definition options : list Getopt.option_ :=
  [ Getopt.Option_ "devices" Getopt.no_argument "d";
    Getopt.Option_ "verbose" Getopt.no_argument "v";
    Getopt.Option_ "help" Getopt.no_argument "h";
    Getopt.Option_ "version" Getopt.no_argument "V" ].

(** The option loop over the values [getopt_long] returns. *)
Fixpoint parse_options (steps : list Getopt.step) (verbose show_devices : Z)
  : M (Z * Z) :=
  match steps with
  | [] => ret (verbose, show_devices)
  | Getopt.Step r said :: rest =>
      match said with
      | Some d => emit (Getopt_says d)
      | None => ret tt
      end ;;
      match r with
      | "h"%char => print_help ;; exit EXIT_SUCCESS
      | "d"%char => parse_options rest verbose 1%Z
      | "v"%char =>
          parse_options rest
            (if (verbose <? VERBOSE_MAX)%Z then (verbose + 1)%Z else verbose)
            show_devices
      | "V"%char => print_version ;; exit EXIT_SUCCESS
      | _ => print_help ;; exit EXIT_FAILURE
      end
  end.

(** The output for an opened driver: [switch(verbose)], lines 146-171. *)
Definition show_driver (verbose : Z) (info : opentmf_driver_info) : M unit :=
  match verbose with
  | 0%Z => printf (name info ++ NL)
  | 1%Z =>
      printf (name info ++ TAB ++ fmt_u (major (version info)) ++ "."
                ++ fmt_u (minor (version info))) ;;
      (if (0 <? patch (version info))%N
       then printf ("." ++ fmt_u (patch (version info))) else ret tt) ;;
      printf (extra (version info) ++ TAB ++ license info ++ TAB
                ++ (if non_free info then "non-free" else "free") ++ NL)
  | 2%Z =>
      printf ("Driver: " ++ name info ++ NL) ;;
      printf ("Version: " ++ fmt_u (major (version info)) ++ "."
                ++ fmt_u (minor (version info))) ;;
      (if (0 <? patch (version info))%N
       then printf ("." ++ fmt_u (patch (version info))) else ret tt) ;;
      printf (extra (version info) ++ NL) ;;
      print_multi_line "Description" (description info) ;;
      print_multi_line "Authors" (authors info) ;;
      printf ("License: " ++ license info ++ NL) ;;
      printf ("Free: " ++ (if non_free info then "no" else "yes") ++ NL) ;;
      printf NL
  | _ => ret tt
  end.

(** The output for an opened device: [switch(verbose)], lines 192-208. *)
Definition show_device (verbose : Z) (device : string)
    (device_info : opentmf_device_info) : M unit :=
  match verbose with
  | 0%Z => printf ("  " ++ device ++ NL)
  | 1%Z =>
      printf ("  " ++ device ++ TAB ++ dev_name device_info ++ TAB
                ++ serial device_info ++ NL)
  | 2%Z =>
      printf ("  Path: " ++ device ++ NL) ;;
      printf ("  Name: " ++ dev_name device_info ++ NL) ;;
      printf ("  Serial: " ++ serial device_info ++ NL) ;;
      printf NL
  | _ => ret tt
  end.

(** One round of the loop over the device list, lines 185-213; returns
    the buffer's content. *)
Definition device_round (verbose : Z) (ctx : context) (url_size : Z)
    (url_base_len : nat) (device : string) (url : string) : M string :=
  url <- terminate_at url_size url_base_len url ;;
  url <- strcat url_size url device ;;
  '(r, dev) <- open ctx url ;;
  (if (r =? SUCCESS)%Z then
     device_info <- dev_get_info dev ;;
     show_device verbose device device_info ;;
     close dev
   else
     eprintf ("Error opening device `" ++ device ++ "`: "
                ++ status_text r)) ;;
  ret url.

(** The loop over the device list, lines 183-216. *)
Fixpoint devices_loop (verbose : Z) (ctx : context) (url_size : Z)
    (url_base_len : nat) (devices : list string) (url : string) : M string :=
  match devices with
  | [] => ret url
  | device :: rest =>
      url <- device_round verbose ctx url_size url_base_len device url ;;
      devices_loop verbose ctx url_size url_base_len rest url
  end.

(** [if(show_devices)], lines 173-223. *)
Definition list_devices (verbose show_devices : Z) (ctx : context)
    (drv : handle) (url_size : Z) (url : string) : M string :=
  if (show_devices =? 0)%Z then ret url
  else
    '(r, device_list) <- drv_get_device_list drv ;;
    if (r =? SUCCESS)%Z then
      let url_base_len := String.length url in
      url <- devices_loop verbose ctx url_size url_base_len device_list url ;;
      r <- drv_free_device_list drv device_list ;;
      (if negb (r =? SUCCESS)%Z
       then eprintf ("Error freeing device list: " ++ status_text r)
       else ret tt) ;;
      ret url
    else
      eprintf ("Error getting device list: " ++ status_text r) ;;
      ret url.

(** The growth of the buffer, lines 132-136. *)
Definition grow (url_size : Z) (driver_name : string) : Z :=
  if (size_t (10 + Z.of_nat (String.length driver_name)) >=? url_size)%Z
  then size_t (url_size * 2) else url_size.

(** One round of the loop over the driver list, lines 138-227, with
    the buffer already grown; returns the buffer's content. *)
Definition driver_round (verbose show_devices : Z) (ctx : context)
    (driver_name : string) (url_size : Z) (url : string) : M string :=
  url <- terminate_at url_size 0 url ;;
  url <- strcat url_size url "opentmf://" ;;
  url <- strcat url_size url driver_name ;;
  '(r, drv) <- open ctx url ;;
  if (r =? SUCCESS)%Z then
    info <- drv_get_info drv ;;
    show_driver verbose info ;;
    url <- list_devices verbose show_devices ctx drv url_size url ;;
    close drv ;;
    ret url
  else
    eprintf ("Error opening driver `" ++ driver_name ++ "`: "
               ++ status_text r) ;;
    ret url.

(** The loop over the driver list, lines 130-230; returns the size and
    the content of the buffer, which are variables of [main]. *)
Fixpoint drivers_loop (verbose show_devices : Z) (ctx : context)
    (driver_names : list string) (url_size : Z) (url : string)
  : M (Z * string) :=
  match driver_names with
  | [] => ret (url_size, url)
  | driver_name :: rest =>
      let url_size := grow url_size driver_name in
      url <- driver_round verbose show_devices ctx driver_name url_size url ;;
      drivers_loop verbose show_devices ctx rest url_size url
  end.

(** Lines 122-241: the driver list and what is done with it; returns
    [status].  The buffer [malloc] returns holds no string yet; its
    first use stores the terminator at offset 0. *)
Definition list_drivers (verbose show_devices : Z) (ctx : context) : M Z :=
  '(r, list) <- get_driver_list ctx ;;
  if (r =? SUCCESS)%Z then
    drivers_loop verbose show_devices ctx list 1024 "" ;;
    r <- free_driver_list ctx list ;;
    (if negb (r =? SUCCESS)%Z
     then eprintf ("Error freeing driver list: " ++ status_text r)
     else ret tt) ;;
    ret EXIT_SUCCESS
  else
    eprintf ("Error getting driver list: " ++ status_text r) ;;
    ret EXIT_FAILURE.

Definition main (argv : list string) : M Z :=
  '(verbose, show_devices) <-
     parse_options (Getopt.getopt_long optstring options argv) 0 0 ;;
  '(r, ctx) <- init ;;
  if negb (r =? SUCCESS)%Z then
    eprintf ("Error initializing library: " ++ status_text r) ;;
    ret EXIT_FAILURE
  else
    status <- list_drivers verbose show_devices ctx ;;
    r <- finalize ctx ;;
    if negb (r =? SUCCESS)%Z then
      eprintf ("Error finalizing library: " ++ status_text r) ;;
      ret EXIT_FAILURE
    else ret status.

End Program.

Arguments main {L context handle} lib PACKAGE_VERSION argv _.

(** * Vocabulary of the properties *)

(** ** Renderings *)

(** The rendering as the specification words it: with a line break in the
    text, every line starts with two spaces and keeps its break, and a
    last line without one gets one. *)
Fixpoint indented (line_start : bool) (text : string) : string :=
  match text with
  | "" => if line_start then "" else NL
  | String c rest =>
      (if line_start then "  " else "")
        ++ String c (indented (Ascii.eqb c nl) rest)
  end.

Definition rendering (label text : string) : string :=
  match strchr text nl with
  | None => label ++ ": " ++ text ++ NL
  | Some _ => label ++ ":" ++ NL ++ indented true text
  end.

Definition cat (l : list string) : string := fold_right append "" l.

(** The version as the specification writes it: [major.minor], and
    [.patch] behind it unless the patch number is zero. *)
Definition version_string (v : opentmf_version) : string :=
  fmt_u (major v) ++ "." ++ fmt_u (minor v)
    ++ (if (patch v =? 0)%N then "" else "." ++ fmt_u (patch v)).

Definition free_word (info : opentmf_driver_info) : string :=
  if non_free info then "non-free" else "free".

(** Fields on one line, a tab between each field and the next. *)
Fixpoint tab_separated (fields : list string) : string :=
  match fields with
  | [] => NL
  | [f] => f ++ NL
  | f :: rest => f ++ TAB ++ tab_separated rest
  end.

(** What the scanner itself writes during one call. *)
Definition says {handle : Type} (st : Getopt.step) : list (event handle) :=
  match Getopt.said st with
  | Some d => [Getopt_says d]
  | None => []
  end.

(** The option words of a command line: the words before [--] that
    start with a dash and are not the lone dash.  All other words are
    operands (positional arguments). *)
Fixpoint option_words (ws : list string) : list string :=
  match ws with
  | [] => []
  | w :: rest =>
      if String.eqb w "--" then []
      else if Getopt.option_word w then w :: option_words rest
      else option_words rest
  end.

(** ** The discipline of handles *)

Definition is_call {handle : Type} (e : event handle) : bool :=
  match e with
  | Print _ _ | Getopt_says _ => false
  | _ => true
  end.

(** The calls into the library, in order. *)
Definition calls {handle : Type} (t : list (event handle)) : list (event handle) :=
  filter is_call t.

Definition is_open_or_close {handle : Type} (e : event handle) : bool :=
  match e with
  | Call_open _ _ _ | Call_close _ => true
  | _ => false
  end.

Definition opens_and_closes {handle : Type} (t : list (event handle))
  : list (event handle) :=
  filter is_open_or_close t.

Section Discipline.

Context {handle : Type}.

(** The status of a call that succeeded. *)
Variable ok : Z.

(** The calls for the devices of a list, under the URL [base] of their
    driver: each device is opened, and closed at once when it did open. *)
Inductive device_calls (base : string)
  : list string -> list (event handle) -> Prop :=
  | no_device : device_calls base [] []
  | device_opened (device : string) (rest : list string) (h : handle) t :
    device_calls base rest t ->
    device_calls base (device :: rest)
      (Call_open (base ++ device) ok h :: Call_close h :: t)
  | device_failed (device : string) (rest : list string) (r : Z) (h : handle) t :
    r <> ok ->
    device_calls base rest t ->
    device_calls base (device :: rest) (Call_open (base ++ device) r h :: t).

(** What happens between the opening and the closing of a driver. *)
Inductive devices_part (show_devices : Z) (base : string) (drv : handle)
  : list (event handle) -> Prop :=
  | devices_not_asked : show_devices = 0%Z -> devices_part show_devices base drv []
  | devices_not_listed (r : Z) (l : list string) :
    show_devices <> 0%Z -> r <> ok ->
    devices_part show_devices base drv [Call_get_device_list drv r l]
  | devices_listed (l : list string) t (r : Z) :
    show_devices <> 0%Z ->
    device_calls base l t ->
    devices_part show_devices base drv
      (Call_get_device_list drv ok l :: t ++ [Call_free_device_list drv r]).

(** The calls for the drivers of a list: one open attempt for each name,
    in order; a driver that opened is closed once, behind its devices
    and before the next driver. *)
Inductive driver_calls (show_devices : Z)
  : list string -> list (event handle) -> Prop :=
  | no_driver : driver_calls show_devices [] []
  | driver_opened (name : string) (rest : list string) (h : handle) td t :
    devices_part show_devices ("opentmf://" ++ name) h td ->
    driver_calls show_devices rest t ->
    driver_calls show_devices (name :: rest)
      (Call_open ("opentmf://" ++ name) ok h :: td ++ Call_close h :: t)
  | driver_failed (name : string) (rest : list string) (r : Z) (h : handle) t :
    r <> ok ->
    driver_calls show_devices rest t ->
    driver_calls show_devices (name :: rest)
      (Call_open ("opentmf://" ++ name) r h :: t).

(** The URLs of the open attempts made while no handle is open, [depth]
    being the number of open handles. *)
Fixpoint outer_attempts (depth : nat) (t : list (event handle)) : list string :=
  match t with
  | [] => []
  | Call_open url r _ :: t' =>
      let rest := outer_attempts (if (r =? ok)%Z then S depth else depth) t' in
      match depth with
      | O => url :: rest
      | S _ => rest
      end
  | Call_close _ :: t' => outer_attempts (Nat.pred depth) t'
  | _ :: t' => outer_attempts depth t'
  end.

(** C5 as it is stated, over opens and closes: a handle that opened is
    closed before the next open attempt, and nothing is closed after an
    attempt that failed. *)
Inductive closed_before_next_open : list (event handle) -> Prop :=
  | cbno_done : closed_before_next_open []
  | cbno_opened (url : string) (h : handle) t :
    closed_before_next_open t ->
    closed_before_next_open (Call_open url ok h :: Call_close h :: t)
  | cbno_failed (url : string) (r : Z) (h : handle) t :
    r <> ok ->
    closed_before_next_open t ->
    closed_before_next_open (Call_open url r h :: t).

End Discipline.

(** A computation that only prints. *)
Definition prints_only {L handle A : Type}
    (m : M (L := L) (handle := handle) A) : Prop :=
  forall s, calls (trace_of (m s)) = [].

(** An outcome other than the stop at an undefined operation. *)
Definition defined {L handle A : Type} (o : outcome L handle A) : Prop :=
  match o with
  | Undefined _ => False
  | _ => True
  end.

(** A computation that returns in every state, with a value that
    satisfies [P]. *)
Definition returns {L handle A : Type}
    (m : M (L := L) (handle := handle) A) (P : A -> Prop) : Prop :=
  forall s, exists a s' t, m s = Ret a s' t /\ P a.

(** The sequence of [main] once the options are read and the library
    is initialized. *)
Definition after_init {L context handle : Type} (lib : opentmf L context handle)
    (verbose show_devices : Z) (ctx : context) : M (L := L) (handle := handle) Z :=
  bind (list_drivers lib verbose show_devices ctx) (fun status =>
  bind (finalize lib ctx) (fun r =>
    if negb (r =? OPENTMF_SUCCESS lib)%Z then
      bind (eprintf ("Error finalizing library: " ++ status_text lib r))
        (fun _ => ret EXIT_FAILURE)
    else ret status)).

(** ** A table-driven library, for running the program

    The state counts the handles that are open; a handle is the URL it
    was opened with. *)

Module Sim.

Record device := Device
  { path : string; dev_open : Z; dev_info : opentmf_device_info }.

Record driver := Driver
  { drv_name : string;
    drv_open : Z;
    drv_info : opentmf_driver_info;
    drv_list : Z;
    drv_devices : list device }.

Record config := Config
  { on_init : Z; on_list : Z; drivers : list driver; on_exit : Z }.

Definition no_info : opentmf_driver_info :=
  Driver_info "" (Version 0 0 0 "") "" "" "" false.

Definition find_driver (c : config) (url : string) : option driver :=
  find (fun d => String.eqb ("opentmf://" ++ drv_name d) url) (drivers c).

Definition find_device (c : config) (url : string) : option device :=
  find (fun v => true)
    (flat_map (fun d =>
                 filter (fun v =>
                           String.eqb ("opentmf://" ++ drv_name d ++ path v) url)
                   (drv_devices d))
       (drivers c)).

Definition sim_open (c : config) (url : string) (s : nat) : Z * string * nat :=
  let r := match find_driver c url with
           | Some d => drv_open d
           | None => match find_device c url with
                     | Some v => dev_open v
                     | None => (-2)%Z
                     end
           end in
  if (r =? 0)%Z then (r, url, S s) else (r, "", s).

Definition library (c : config) : opentmf nat unit string :=
  {| OPENTMF_SUCCESS := 0%Z;
     opentmf_get_status_str := fun r =>
       if (r =? 0)%Z then "Success" else "Failure";
     opentmf_init := fun s => (on_init c, tt, s);
     opentmf_exit := fun _ s => (on_exit c, s);
     opentmf_get_driver_list := fun _ s =>
       (on_list c, map drv_name (drivers c), s);
     opentmf_free_driver_list := fun _ _ s => (0%Z, s);
     opentmf_open := fun _ => sim_open c;
     opentmf_close := fun _ s => Nat.pred s;
     opentmf_drv_get_info := fun h _ =>
       match find_driver c h with
       | Some d => drv_info d
       | None => no_info
       end;
     opentmf_drv_get_device_list := fun h s =>
       match find_driver c h with
       | Some d => (drv_list d, map path (drv_devices d), s)
       | None => ((-2)%Z, [], s)
       end;
     opentmf_drv_free_device_list := fun _ _ s => (0%Z, s);
     opentmf_dev_get_info := fun h _ =>
       match find_device c h with
       | Some v => dev_info v
       | None => Device_info "" ""
       end |}.

Definition run (c : config) (argv : list string) : outcome nat string Z :=
  main (library c) "0.1" argv 0.

(** A driver of the given name that opens, with one line of
    description, and its devices. *)
Definition plain (n : string) (p : N) (devs : list device) : driver :=
  Driver n 0
    (Driver_info n (Version 1 2 p "-rc1") "A driver" "A. Author" "GPL-2.0" false)
    0 devs.

Definition broken (n : string) : driver :=
  Driver n (-1) no_info 0 [].

Definition dev (p : string) : device :=
  Device p 0 (Device_info ("Scope at " ++ p) "SN1").

End Sim.

Definition scope_rc1 : opentmf_driver_info :=
  Driver_info "scope" (Version 1 2 0 "-rc1") "" "" "GPL-2.0" false.

(** A bench with three drivers: [a] with one device, [b] which does not
    open, [c] without devices. *)
Definition bench : Sim.config :=
  Sim.Config 0 0
    [ Sim.plain "a" 0 [Sim.dev "/0"]; Sim.broken "b"; Sim.plain "c" 3 [] ] 0.

(** A name of [n] letters. *)
Fixpoint letters (n : nat) : string :=
  match n with
  | O => ""
  | S n' => String "a" (letters n')
  end.

(** ** Further vocabulary *)

(** The number of values [c] among those the scanner returns. *)
Definition flag_count (c : ascii) (steps : list Getopt.step) : nat :=
  List.length (filter (fun st => Ascii.eqb (Getopt.code st) c) steps).

(** The short option a long option stands for; any other word is left
    as it is. *)
Definition short_form (w : string) : string :=
  if String.eqb w "--devices" then "-d"
  else if String.eqb w "--verbose" then "-v"
  else if String.eqb w "--help" then "-h"
  else if String.eqb w "--version" then "-V"
  else w.

(** Every event of every run of [m] satisfies [P]. *)
Definition always {L handle A : Type} (P : event handle -> Prop)
    (m : M (L := L) (handle := handle) A) : Prop :=
  forall s, Forall P (trace_of (m s)).

(** The events of the loop over the drivers may all satisfy [P]: what
    is printed on standard output, the lines that start with [Error] on
    standard error, and the calls that open, close and list. *)
Definition holds_in_loop {handle : Type} (P : event handle -> Prop) : Prop :=
  (forall x, P (Print Stdout x))
  /\ (forall x, prefix "Error " x = true -> P (Print Stderr x))
  /\ (forall u r h, P (Call_open u r h))
  /\ (forall h, P (Call_close h))
  /\ (forall h r l, P (Call_get_device_list h r l))
  /\ (forall h r, P (Call_free_device_list h r)).

(** A status other than [ok] from the initialization, from the retrieval
    of the driver list or from the finalization. *)
Definition fatal {handle : Type} (ok : Z) (e : event handle) : bool :=
  match e with
  | Call_init r | Call_get_driver_list r _ | Call_exit r => negb (r =? ok)%Z
  | _ => false
  end.

(** What the program prints on standard error starts with [Error]. *)
Definition error_on_stderr {handle : Type} (e : event handle) : Prop :=
  match e with
  | Print Stderr x => prefix "Error " x = true
  | _ => True
  end.

(** The handles that are open, the last one opened first, before and
    after the events of a run.  A handle that opens is put on top, if
    fewer than [limit] are open; a close is of the handle on top, which
    it takes off; a failed open and any other event change nothing. *)
Inductive handles_nested {handle : Type} (ok : Z) (limit : nat)
  : list handle -> list (event handle) -> list handle -> Prop :=
  | nested_end (open : list handle) : handles_nested ok limit open [] open
  | nested_open (url : string) (h : handle) t (open final : list handle) :
      List.length open < limit ->
      handles_nested ok limit (h :: open) t final ->
      handles_nested ok limit open (Call_open url ok h :: t) final
  | nested_failed (url : string) (r : Z) (h : handle) t
      (open final : list handle) :
      r <> ok ->
      handles_nested ok limit open t final ->
      handles_nested ok limit open (Call_open url r h :: t) final
  | nested_close (h : handle) t (open final : list handle) :
      handles_nested ok limit open t final ->
      handles_nested ok limit (h :: open) (Call_close h :: t) final
  | nested_other (e : event handle) t (open final : list handle) :
      is_open_or_close e = false ->
      handles_nested ok limit open t final ->
      handles_nested ok limit open (e :: t) final.

(** A text with a line break at its end, added when it has none; [b]
    tells that the text starts a line (the empty text stays empty). *)
Fixpoint terminated (b : bool) (text : string) : string :=
  match text with
  | "" => if b then "" else NL
  | String c rest => String c (terminated (Ascii.eqb c nl) rest)
  end.

(** The lines of [out] without their first two characters; [skip] is
    the number of characters still to drop on the current line. *)
Fixpoint unindent (skip : nat) (out : string) : string :=
  match out with
  | "" => ""
  | String c rest =>
      match skip with
      | S k => unindent k rest
      | O => String c (unindent (if Ascii.eqb c nl then 2 else 0) rest)
      end
  end.

(** * Properties *)

(** ** Multi-line fields *)

Lemma cat_app (l l' : list string) : cat (l ++ l')%list = cat l ++ cat l'.
Proof.
  induction l as [|a l IH]; simpl; [reflexivity|].
  rewrite IH, append_assoc. reflexivity.
Qed.

Lemma precision_S (n : nat) (a : ascii) (s : string) :
  precision (S n) (String a s) = String a (precision n s).
Proof. reflexivity. Qed.

Lemma indented_line (text : string) : forall (i : nat) (b : bool),
  strchr text nl = Some i ->
  indented b text
  = (if b then "  " else "") ++ precision (S i) text
      ++ indented true (advance (S i) text).
Proof.
  induction text as [|a s IH]; intros i b H; simpl in H; [discriminate|].
  destruct (Ascii.eqb a nl) eqn:E.
  - injection H as <-.
    change (advance 1 (String a s)) with s.
    rewrite precision_S. simpl indented. rewrite E.
    destruct s; destruct b; reflexivity.
  - destruct (strchr s nl) as [j|] eqn:Hj; [|discriminate].
    injection H as <-.
    change (advance (S (S j)) (String a s)) with (advance (S j) s).
    rewrite precision_S. simpl indented. rewrite E, (IH j false eq_refl).
    destruct b; reflexivity.
Qed.

Lemma indented_last (text : string) : forall b : bool,
  strchr text nl = None ->
  indented b text
  = match text with
    | "" => if b then "" else NL
    | _ => (if b then "  " else "") ++ text ++ NL
    end.
Proof.
  induction text as [|a s IH]; intros b H; [reflexivity|].
  simpl in H. destruct (Ascii.eqb a nl) eqn:E; [discriminate|].
  destruct (strchr s nl); [discriminate|].
  simpl indented. rewrite E, (IH false eq_refl).
  destruct s; destruct b; reflexivity.
Qed.

#[local] Arguments advance : simpl never.
#[local] Arguments Z.of_nat : simpl never.

(** The loop returns when no line is longer than an [int] can count, and
    has then printed the lines that end in a break. *)
Lemma indent_lines_spec (n : nat) : forall text : string,
  String.length text <= n ->
  (Z.of_nat (String.length text) <= INT_MAX)%Z ->
  exists out rest,
    indent_lines text = (out, Some rest)
    /\ strchr rest nl = None
    /\ cat out ++ indented true rest = indented true text.
Proof.
  induction n as [|n IH]; intros text Hn Hmax.
  - destruct text; [|simpl in Hn; lia].
    exists [], "". repeat split.
  - rewrite indent_lines_equation_1.
    destruct (inspect (strchr text nl)) as [[i|] E]; simpl.
    + pose proof (strchr_bound _ _ _ E) as Hi.
      destruct (INT_MAX <? Z.of_nat (S i))%Z eqn:Hcmp.
      { apply Z.ltb_lt in Hcmp. lia. }
      destruct (IH (advance (S i) text)) as (out & rest & Hrun & Hrest & Hcat).
      * rewrite advance_length. lia.
      * rewrite advance_length. lia.
      * exists (("  " ++ precision (S i) text) :: out), rest.
        rewrite Hrun. repeat split; [assumption|].
        rewrite (indented_line text i true E), <- Hcat.
        simpl. rewrite append_assoc. reflexivity.
    + exists [], text. repeat split. assumption.
Qed.

(** ** Running the monad *)

Section Runs.

Context {L context handle : Type}.
Implicit Types (s : L) (t : list (event handle)).

Lemma prepend_nil {A} (o : outcome L handle A) : prepend [] o = o.
Proof. destruct o; reflexivity. Qed.

Lemma prepend_prepend {A} t t' (o : outcome L handle A) :
  prepend t (prepend t' o) = prepend (t ++ t')%list o.
Proof. destruct o; simpl; rewrite app_assoc; reflexivity. Qed.

Lemma trace_of_prepend {A} t (o : outcome L handle A) :
  trace_of (prepend t o) = (t ++ trace_of o)%list.
Proof. destruct o; reflexivity. Qed.

Lemma bind_run {A B} (m : M A) (k : A -> M B) s a s' t :
  m s = Ret a s' t -> bind m k s = prepend t (k a s').
Proof. unfold bind. intros ->. reflexivity. Qed.

(** A sequence that returns: both parts have returned. *)
Lemma bind_returns {A B} (m : M A) (k : A -> M B) s b s'' t :
  bind m k s = Ret b s'' t ->
  exists a s' t1 t2,
    m s = Ret a s' t1 /\ k a s' = Ret b s'' t2 /\ t = (t1 ++ t2)%list.
Proof.
  unfold bind. destruct (m s) as [a s' t1| |]; try discriminate.
  destruct (k a s') as [b' s3 t2| |] eqn:E; try discriminate.
  simpl. intros [= -> -> <-]. exists a, s', t1, t2. auto.
Qed.

Lemma printed_app (fd : stream) t t' :
  printed fd (t ++ t')%list = printed fd t ++ printed fd t'.
Proof.
  induction t as [|e t IH]; simpl; [reflexivity|].
  destruct e as [[] x| | | | | | | | |]; destruct fd; simpl;
    rewrite IH; try rewrite append_assoc; reflexivity.
Qed.

Lemma printf_each_run (l : list string) s :
  printf_each (handle := handle) l s = Ret tt s (map (Print Stdout) l).
Proof.
  induction l as [|x l IH]; [reflexivity|].
  simpl. unfold bind, printf, emit. rewrite IH. reflexivity.
Qed.

Lemma printed_stdout (l : list string) :
  printed Stdout (map (@Print handle Stdout) l) = cat l.
Proof. induction l as [|x l IH]; simpl; [|rewrite IH]; reflexivity. Qed.

Lemma printed_stderr (l : list string) :
  printed Stderr (map (@Print handle Stdout) l) = "".
Proof. induction l as [|x l IH]; simpl; auto. Qed.

(** C4. A label and a text are printed on standard output as the
    specification renders them: a text without a line break as the one
    line [Label: text]; any other text as [Label:] on a line of its own
    followed by every line of the text behind two spaces, the last one
    given a line break when it has none.  A text with a line break is
    no longer than [INT_MAX], the range of the line length in the
    source. *)
Theorem print_multi_line_rendering (label text : string) s :
  (strchr text nl <> None -> (Z.of_nat (String.length text) <= INT_MAX)%Z) ->
  exists t,
    print_multi_line (handle := handle) label text s = Ret tt s t
    /\ printed Stdout t = rendering label text
    /\ printed Stderr t = "".
Proof.
  intros Hmax. unfold print_multi_line, print_multi_line_out, rendering.
  destruct (strchr text nl) as [i|] eqn:E.
  - destruct (indent_lines_spec _ text (le_n _)
                (Hmax ltac:(congruence)))
      as (out & rest & Hrun & Hrest & Hcat).
    rewrite Hrun. cbn [fst snd].
    erewrite bind_run by apply printf_each_run.
    unfold ret, prepend. rewrite app_nil_r.
    eexists. split; [reflexivity|].
    split; [|apply printed_stderr].
    rewrite printed_stdout. cbn [cat fold_right].
    fold (cat (out ++ (if String.eqb rest "" then []
                       else [String " " (String " " (rest ++ NL))]))%list).
    rewrite cat_app, <- Hcat, (indented_last rest true Hrest).
    rewrite !append_assoc.
    destruct rest; simpl; rewrite ?append_nil_r; reflexivity.
  - erewrite bind_run by apply printf_each_run.
    unfold ret, prepend. rewrite app_nil_r.
    eexists. split; [reflexivity|].
    split; [|apply printed_stderr].
    rewrite printed_stdout. simpl. rewrite append_nil_r. reflexivity.
Qed.

End Runs.

Lemma print_multi_line_a_b :
  (strchr ("a" ++ NL ++ "b") nl <> None ->
   (Z.of_nat (String.length ("a" ++ NL ++ "b")) <= INT_MAX)%Z)
  /\ exists t,
      print_multi_line (handle := string) "Label" ("a" ++ NL ++ "b") 0 = Ret tt 0 t
      /\ printed Stdout t = "Label:" ++ NL ++ "  a" ++ NL ++ "  b" ++ NL
      /\ printed Stderr t = "".
Proof.
  split; [intros _; vm_compute; discriminate|].
  exact (print_multi_line_rendering "Label" ("a" ++ NL ++ "b") 0
           ltac:(intros _; vm_compute; discriminate)).
Defined.

(** ** The driver line and the version *)

Lemma append_same_l (a b : string) : a ++ b = a -> b = "".
Proof.
  intros H. apply (f_equal String.length) in H.
  rewrite append_length in H. destruct b; [reflexivity|simpl in H; lia].
Qed.

Section Driver_output.

Context {L handle : Type}.
Implicit Types (s : L) (info : opentmf_driver_info).

Lemma patch_test (p : N) : (0 <? p)%N = negb (p =? 0)%N.
Proof.
  destruct (N.ltb_spec 0 p), (N.eqb_spec p 0); simpl; auto; lia.
Qed.

(** C3, as the program has it. At verbosity 1 an opened driver is
    printed on standard output as its name, a tab, the version with the
    extra label directly behind it, a tab, the license, a tab, and
    [free] or [non-free], ended by a line break: the tabs separate
    four fields, and no tab stands between version and extra label. *)
Theorem driver_line_fields info s :
  exists t,
    show_driver (handle := handle) 1 info s = Ret tt s t
    /\ printed Stdout t
       = tab_separated
           [ name info;
             version_string (version info) ++ extra (version info);
             license info;
             free_word info ]
    /\ printed Stderr t = "".
Proof.
  unfold version_string, free_word. cbn [show_driver tab_separated].
  rewrite patch_test.
  destruct (patch (version info) =? 0)%N; eexists;
    (split; [reflexivity|]); simpl; split; try reflexivity;
    rewrite ?append_assoc, ?append_nil_r; simpl;
    rewrite ?append_assoc; reflexivity.
Qed.

(** C9. The version is printed as [major.minor] when the patch number
    is zero and as [major.minor.patch] otherwise, in the line of
    verbosity 1 and in the [Version:] line of verbosity 2; 1, 2, 0 is
    printed as [1.2] and 1, 2, 3 as [1.2.3]. *)
Theorem version_patch_segment info s :
  printed Stdout (trace_of (show_driver (handle := handle) 1 info s))
  = name info ++ TAB ++ version_string (version info)
      ++ extra (version info) ++ TAB
      ++ license info ++ TAB ++ free_word info ++ NL
  /\ (exists rest,
        printed Stdout (trace_of (show_driver (handle := handle) 2 info s))
        = "Driver: " ++ name info ++ NL
            ++ "Version: " ++ version_string (version info)
            ++ extra (version info) ++ NL ++ rest)
  /\ (version_string (version info)
      = fmt_u (major (version info)) ++ "." ++ fmt_u (minor (version info))
      <-> patch (version info) = 0%N)
  /\ version_string (Version 1 2 0 (extra (version info))) = "1.2"
  /\ version_string (Version 1 2 3 (extra (version info))) = "1.2.3".
Proof.
  unfold version_string, free_word.
  repeat split; try reflexivity.
  - cbn [show_driver]. rewrite patch_test.
    destruct (patch (version info) =? 0)%N; simpl;
      rewrite ?append_assoc, ?append_nil_r; simpl;
      rewrite ?append_assoc; reflexivity.
  - cbn [show_driver]. rewrite patch_test.
    unfold bind at 1. cbn [printf emit].
    unfold bind at 1. cbn [printf emit].
    destruct (patch (version info) =? 0)%N; cbn [negb];
      unfold bind at 1; cbn [printf emit ret prepend];
      unfold bind at 1; cbn [printf emit ret prepend];
      rewrite !prepend_prepend, trace_of_prepend, printed_app;
      eexists; unfold NL; simpl; repeat (rewrite append_assoc; simpl);
      reflexivity.
  - intros H. destruct (N.eqb_spec (patch (version info)) 0); [assumption|].
    assert (E : forall a b c : string,
               a ++ "." ++ b ++ c = (a ++ "." ++ b) ++ c)
      by (intros; rewrite !append_assoc; reflexivity).
    rewrite E in H. apply append_same_l in H. discriminate.
  - intros ->. simpl. rewrite append_nil_r. reflexivity.
Qed.

End Driver_output.

(** C3, as stated, fails: with a tab between each field and the next the
    extra label would stand in a column of its own. *)
Lemma driver_line_not_five_columns :
  printed Stdout (trace_of (show_driver (handle := string) 1 scope_rc1 0))
  <> tab_separated
       [ name scope_rc1; version_string (version scope_rc1);
         extra (version scope_rc1); license scope_rc1; free_word scope_rc1 ]
  /\ printed Stdout (trace_of (show_driver (handle := string) 1 scope_rc1 0))
     = "scope" ++ TAB ++ "1.2-rc1" ++ TAB ++ "GPL-2.0" ++ TAB ++ "free" ++ NL.
Proof. split; [vm_compute; discriminate|reflexivity]. Qed.

(** ** The command line *)

Section Command_line.

Context {L context handle : Type}.
Variable lib : opentmf L context handle.
Variable PACKAGE_VERSION : string.
Implicit Types (s : L) (verbose show_devices : Z).

Abbreviation scan := (Getopt.scan optstring options).
Abbreviation parse := (parse_options (L := L) (handle := handle) PACKAGE_VERSION).

Lemma scan_v (ws : list string) :
  scan ("-v" :: ws) = Getopt.good "v" :: scan ws.
Proof. reflexivity. Qed.

Lemma scan_repeat_v (k : nat) :
  scan (repeat "-v" k) = repeat (Getopt.good "v") k.
Proof.
  induction k as [|k IH]; [reflexivity|].
  cbn [repeat]. rewrite scan_v, IH. reflexivity.
Qed.

Lemma parse_v (rest : list Getopt.step) verbose show_devices s :
  parse (Getopt.good "v" :: rest) verbose show_devices s
  = parse rest
      (if (verbose <? VERBOSE_MAX)%Z then (verbose + 1)%Z else verbose)
      show_devices s.
Proof.
  cbn [parse_options Getopt.good]. unfold bind at 1. cbn [ret].
  apply prepend_nil.
Qed.

Lemma parse_d (rest : list Getopt.step) verbose show_devices s :
  parse (Getopt.good "d" :: rest) verbose show_devices s
  = parse rest verbose 1%Z s.
Proof.
  cbn [parse_options Getopt.good]. unfold bind at 1. cbn [ret].
  apply prepend_nil.
Qed.

Lemma parse_repeat_v (k : nat) : forall verbose show_devices s,
  (0 <= verbose <= VERBOSE_MAX)%Z ->
  parse (repeat (Getopt.good "v") k) verbose show_devices s
  = Ret (Z.min (verbose + Z.of_nat k) VERBOSE_MAX, show_devices) s [].
Proof.
  unfold VERBOSE_MAX.
  induction k as [|k IH]; intros verbose show_devices s Hv.
  - cbn [repeat parse_options]. unfold ret. do 2 f_equal. lia.
  - cbn [repeat]. rewrite parse_v. unfold VERBOSE_MAX.
    destruct (Z.ltb_spec verbose 2).
    + rewrite IH by lia. do 2 f_equal. lia.
    + rewrite IH by lia. do 2 f_equal. lia.
Qed.

(** An operand is passed over. *)
Lemma scan_operand (w : string) (ws : list string) :
  Getopt.option_word w = false -> scan (w :: ws) = scan ws.
Proof.
  destruct w as [|a [|b w]]; intros H.
  - reflexivity.
  - destruct a as [[] [] [] [] [] [] [] []]; reflexivity.
  - destruct a as [[] [] [] [] [] [] [] []]; try reflexivity.
    discriminate.
Qed.

(** Only the option words reach the option loop. *)
Lemma scan_option_words (ws : list string) :
  scan (option_words ws) = scan ws.
Proof.
  induction ws as [|w ws IH]; [reflexivity|].
  cbn [option_words]. destruct (String.eqb w "--") eqn:E.
  - apply String.eqb_eq in E. subst w. reflexivity.
  - destruct (Getopt.option_word w) eqn:O.
    + cbn [Getopt.scan]. rewrite E, IH. reflexivity.
    + rewrite (scan_operand w ws O). exact IH.
Qed.

(** C10. Two argument vectors with the same program name and the same
    option words, in the same order, give the same run, whatever their
    operands are and wherever they stand: the words that do not start
    with a dash, the lone dash and every word behind [--] are passed
    over, without usage text and without failure. *)
Theorem positional_arguments_ignored (prog : string) (ws ws' : list string) s :
  option_words ws = option_words ws' ->
  main lib PACKAGE_VERSION (prog :: ws) s
  = main lib PACKAGE_VERSION (prog :: ws') s.
Proof.
  intros H. unfold main, Getopt.getopt_long. cbn [tl].
  rewrite <- (scan_option_words ws), <- (scan_option_words ws'), H.
  reflexivity.
Qed.

(** The option loop over flags [d] and [v] goes on to the next value. *)
Lemma parse_flags (before rest : list Getopt.step) :
  Forall (fun st => Getopt.code st = "d"%char \/ Getopt.code st = "v"%char)
    before ->
  forall verbose show_devices s,
  exists verbose' show_devices',
    parse (before ++ rest)%list verbose show_devices s
    = prepend (flat_map says before) (parse rest verbose' show_devices' s).
Proof.
  induction 1 as [|[r said] before [Hr|Hr] _ IH];
    intros verbose show_devices s.
  - exists verbose, show_devices. symmetry. apply prepend_nil.
  - simpl in Hr. subst r.
    destruct (IH verbose 1%Z s) as (v' & d' & E).
    exists v', d'. cbn [app flat_map parse_options].
    rewrite <- prepend_prepend, <- E.
    destruct said; reflexivity.
  - simpl in Hr. subst r.
    destruct (IH (if (verbose <? VERBOSE_MAX)%Z
                  then (verbose + 1)%Z else verbose) show_devices s)
      as (v' & d' & E).
    exists v', d'. cbn [app flat_map parse_options].
    rewrite <- prepend_prepend, <- E.
    destruct said; reflexivity.
Qed.

(** C2, as the program has it. When the first value the scanner returns
    other than the flags [d] and [v] is ['?'], its answer to an option
    it does not recognize, the program prints the usage text on
    standard output, nothing on standard error, and exits with the
    failure status; the scanner's own diagnostics are all that reaches
    standard error. *)
Theorem unrecognized_option_usage (argv : list string)
    (before after : list Getopt.step) (said : option Getopt.diagnostic) s :
  Getopt.getopt_long optstring options argv
  = (before ++ Getopt.Step Getopt.question said :: after)%list ->
  Forall (fun st => Getopt.code st = "d"%char \/ Getopt.code st = "v"%char)
    before ->
  exists t,
    main lib PACKAGE_VERSION argv s = Exit EXIT_FAILURE s t
    /\ t = (flat_map says before
              ++ says (Getopt.Step Getopt.question said)
              ++ [Print Stdout help_text])%list
    /\ printed Stdout t = help_text
    /\ printed Stderr t = "".
Proof.
  intros Hscan Hflags. eexists. split; [|split; [reflexivity|]].
  - unfold main. rewrite Hscan.
    destruct (parse_flags before
                (Getopt.Step Getopt.question said :: after) Hflags 0%Z 0%Z s)
      as (v' & d' & E).
    unfold bind at 1. fold parse. rewrite E.
    cbn [parse_options]. destruct said; reflexivity.
  - clear. rewrite !printed_app.
    assert (H : forall fd, printed fd (flat_map (says (handle := handle)) before) = "").
    { intros fd. induction before as [|[r [d|]] l IH]; simpl; auto. }
    rewrite !H. destruct said; split; simpl;
      rewrite ?append_nil_r; reflexivity.
Qed.

End Command_line.

Lemma verbose_then_unknown :
  Getopt.getopt_long optstring options ["lsopentmf"; "-v"; "-x"]
  = ([Getopt.good "v"]
       ++ Getopt.Step Getopt.question (Some (Getopt.Invalid_option "x")) :: [])%list
  /\ exists t,
      Sim.run bench ["lsopentmf"; "-v"; "-x"] = Exit EXIT_FAILURE 0 t
      /\ t = (flat_map says [Getopt.good "v"]
                ++ says (Getopt.Step Getopt.question
                           (Some (Getopt.Invalid_option "x")))
                ++ [Print Stdout help_text])%list
      /\ printed Stdout t = help_text
      /\ printed Stderr t = "".
Proof.
  split; [reflexivity|].
  apply (unrecognized_option_usage (Sim.library bench) "0.1"
           ["lsopentmf"; "-v"; "-x"] [Getopt.good "v"] []
           (Some (Getopt.Invalid_option "x")) 0).
  - reflexivity.
  - constructor; [right; reflexivity|constructor].
Defined.

(** C2, as stated, fails: for [-x] the usage text is what the program
    writes on standard output, and it writes nothing on standard error. *)
Lemma usage_not_on_stderr :
  Sim.run bench ["lsopentmf"; "-x"]
  = Exit EXIT_FAILURE 0
      [Getopt_says (Getopt.Invalid_option "x"); Print Stdout help_text]
  /\ printed Stderr (trace_of (Sim.run bench ["lsopentmf"; "-x"])) <> help_text
  /\ printed Stderr (trace_of (Sim.run bench ["lsopentmf"; "-x"])) = ""
  /\ printed Stdout (trace_of (Sim.run bench ["lsopentmf"; "-x"])) = help_text.
Proof.
  split; [reflexivity|]. split; [vm_compute; discriminate|].
  split; reflexivity.
Qed.

Lemma operands_between_options :
  option_words ["-v"; "notes.txt"; "-d"; "-"; "--"; "-h"]
  = option_words ["out"; "-v"; "-d"]
  /\ Sim.run bench ["lsopentmf"; "-v"; "notes.txt"; "-d"; "-"; "--"; "-h"]
     = Sim.run bench ["lsopentmf"; "out"; "-v"; "-d"].
Proof.
  split; [reflexivity|].
  apply (positional_arguments_ignored (Sim.library bench) "0.1" "lsopentmf"
           ["-v"; "notes.txt"; "-d"; "-"; "--"; "-h"] ["out"; "-v"; "-d"] 0).
  reflexivity.
Defined.

(** ** The main sequence *)

Section Main_sequence.

Context {L context handle : Type}.
Variable lib : opentmf L context handle.
Variable PACKAGE_VERSION : string.
Implicit Types (s : L) (t : list (event handle)) (ctx : context).

Abbreviation SUCCESS := (OPENTMF_SUCCESS lib).

Lemma bind_assoc {A B C} (m : M A) (f : A -> M B) (g : B -> M C) s :
  bind (bind m f) g s
  = bind (L := L) (handle := handle) m (fun a => bind (f a) g) s.
Proof.
  unfold bind. destruct (m s) as [a s1 t1| |]; try reflexivity.
  destruct (f a s1) as [b s2 t2| |]; try reflexivity.
  simpl. rewrite prepend_prepend. reflexivity.
Qed.

Lemma bind_ext {A B} (m : M A) (k k' : A -> M B) s :
  (forall a s', k a s' = k' a s') ->
  bind (L := L) (handle := handle) m k s = bind m k' s.
Proof.
  intros H. unfold bind. destruct (m s); try reflexivity.
  rewrite H. reflexivity.
Qed.

(** The loop over a list in two parts is the loop over the first part
    followed by the loop over the second. *)
Lemma drivers_loop_app verbose show_devices ctx (before after : list string) :
  forall url_size url s,
  drivers_loop lib verbose show_devices ctx (before ++ after)%list url_size url s
  = bind (drivers_loop lib verbose show_devices ctx before url_size url)
      (fun '(url_size', url') =>
         drivers_loop lib verbose show_devices ctx after url_size' url') s.
Proof.
  induction before as [|n before IH]; intros url_size url s.
  - cbn [app drivers_loop]. unfold bind, ret. symmetry. apply prepend_nil.
  - cbn [app drivers_loop]. rewrite bind_assoc.
    apply bind_ext. intros url' s'. apply IH.
Qed.

(** A round for a driver whose URL fits and which does not open. *)
Lemma driver_round_failed verbose show_devices ctx name url_size url s r h s' :
  (10 + Z.of_nat (String.length name) < url_size)%Z ->
  opentmf_open lib ctx ("opentmf://" ++ name) s = (r, h, s') ->
  r <> SUCCESS ->
  driver_round lib verbose show_devices ctx name url_size url s
  = Ret ("opentmf://" ++ name) s'
      [ Call_open ("opentmf://" ++ name) r h;
        Print Stderr ("Error opening driver `" ++ name ++ "`: "
                        ++ status_text lib r) ].
Proof.
  intros Hfit Hopen Hr. unfold driver_round.
  unfold bind at 1. unfold terminate_at.
  destruct (Z.ltb_spec (Z.of_nat 0) url_size); [|lia].
  replace (precision 0 url) with "" by (destruct url; reflexivity).
  cbn [ret prepend]. unfold bind at 1. unfold strcat at 1.
  change (String.length "" + String.length "opentmf://") with 10.
  destruct (Z.ltb_spec (Z.of_nat 10) url_size); [|lia].
  cbn [ret prepend app append]. unfold bind at 1. unfold strcat at 1.
  change (String.length "opentmf://") with 10.
  destruct (Z.ltb_spec (Z.of_nat (10 + String.length name)) url_size);
    [|lia].
  cbn [ret prepend app]. unfold bind at 1. unfold open.
  rewrite Hopen. cbn [prepend app].
  apply Z.eqb_neq in Hr. rewrite Hr. reflexivity.
Qed.

Lemma main_initialized argv verbose show_devices s0 s0' t0 ctx s1 :
  parse_options PACKAGE_VERSION
    (Getopt.getopt_long optstring options argv) 0 0 s0
  = Ret (verbose, show_devices) s0' t0 ->
  opentmf_init lib s0' = (SUCCESS, ctx, s1) ->
  main lib PACKAGE_VERSION argv s0
  = prepend (t0 ++ [Call_init SUCCESS])%list
      (after_init lib verbose show_devices ctx s1).
Proof.
  intros Hopts Hinit. unfold main.
  rewrite (bind_run _ _ _ _ _ _ Hopts).
  unfold bind at 1. unfold init. rewrite Hinit.
  rewrite Z.eqb_refl. cbn [negb]. rewrite prepend_prepend. reflexivity.
Qed.

(** C6. When the options are read, the library is initialized and the
    listing of the drivers has returned, whatever its status, a
    finalization that fails makes [main] print
    [Error finalizing library: <status-text> (<code>)] on standard
    error as the last thing it does, and return the failure status. *)
Theorem finalize_failure_is_fatal argv verbose show_devices
    s0 s0' t0 ctx s1 status s2 t2 r s3 :
  parse_options PACKAGE_VERSION
    (Getopt.getopt_long optstring options argv) 0 0 s0
  = Ret (verbose, show_devices) s0' t0 ->
  opentmf_init lib s0' = (SUCCESS, ctx, s1) ->
  list_drivers lib verbose show_devices ctx s1 = Ret status s2 t2 ->
  opentmf_exit lib ctx s2 = (r, s3) ->
  r <> SUCCESS ->
  main lib PACKAGE_VERSION argv s0
  = Ret EXIT_FAILURE s3
      (t0 ++ [Call_init SUCCESS] ++ t2
         ++ [ Call_exit r;
              Print Stderr ("Error finalizing library: "
                              ++ opentmf_get_status_str lib r
                              ++ " (" ++ fmt_d r ++ ")" ++ NL) ])%list
  /\ EXIT_FAILURE <> EXIT_SUCCESS.
Proof.
  intros Hopts Hinit Hlist Hexit Hr. split; [|discriminate].
  rewrite (main_initialized _ _ _ _ _ _ _ _ Hopts Hinit).
  unfold after_init. rewrite (bind_run _ _ _ _ _ _ Hlist).
  unfold bind at 1. unfold finalize. rewrite Hexit.
  apply Z.eqb_neq in Hr. rewrite Hr. cbn.
  rewrite <- !app_assoc. reflexivity.
Qed.

(** C7. When a driver of the list does not open (and its URL fits the
    buffer), the rounds before it and after it run as they would
    without it, the round itself consists of the open attempt and of
    one line on standard error that names the driver, the driver list
    is freed afterwards, and [main] returns 0 when the initialization,
    the retrieval of the list and the finalization succeed. *)
Theorem failed_driver_is_skipped argv verbose show_devices
    s0 s0' t0 ctx s1 (before after : list string) (name : string) s2
    size3 url3 s3 t3 r h s4 size5 url5 s5 t5 rf s6 s7 :
  parse_options PACKAGE_VERSION
    (Getopt.getopt_long optstring options argv) 0 0 s0
  = Ret (verbose, show_devices) s0' t0 ->
  opentmf_init lib s0' = (SUCCESS, ctx, s1) ->
  opentmf_get_driver_list lib ctx s1
  = (SUCCESS, (before ++ name :: after)%list, s2) ->
  drivers_loop lib verbose show_devices ctx before 1024 "" s2
  = Ret (size3, url3) s3 t3 ->
  (10 + Z.of_nat (String.length name) < grow size3 name)%Z ->
  opentmf_open lib ctx ("opentmf://" ++ name) s3 = (r, h, s4) ->
  r <> SUCCESS ->
  drivers_loop lib verbose show_devices ctx after
    (grow size3 name) ("opentmf://" ++ name) s4
  = Ret (size5, url5) s5 t5 ->
  opentmf_free_driver_list lib ctx (before ++ name :: after)%list s5
  = (rf, s6) ->
  opentmf_exit lib ctx s6 = (SUCCESS, s7) ->
  main lib PACKAGE_VERSION argv s0
  = Ret 0%Z s7
      (t0 ++ [ Call_init SUCCESS;
               Call_get_driver_list SUCCESS (before ++ name :: after)%list ]
          ++ t3
          ++ [ Call_open ("opentmf://" ++ name) r h;
               Print Stderr ("Error opening driver `" ++ name ++ "`: "
                               ++ opentmf_get_status_str lib r
                               ++ " (" ++ fmt_d r ++ ")" ++ NL) ]
          ++ t5
          ++ [Call_free_driver_list rf]
          ++ (if (rf =? SUCCESS)%Z then []
              else [Print Stderr ("Error freeing driver list: "
                                    ++ status_text lib rf)])
          ++ [Call_exit SUCCESS])%list.
Proof.
  intros Hopts Hinit Hlist Hbefore Hfit Hopen Hr Hafter Hfree Hexit.
  rewrite (main_initialized _ _ _ _ _ _ _ _ Hopts Hinit).
  unfold after_init, list_drivers.
  unfold bind at 1. unfold bind at 1. unfold get_driver_list.
  rewrite Hlist. rewrite Z.eqb_refl.
  unfold bind at 1. rewrite drivers_loop_app.
  rewrite (bind_run _ _ _ _ _ _ Hbefore).
  cbn [drivers_loop]. unfold bind at 1.
  rewrite (driver_round_failed _ _ _ _ _ _ _ _ _ _ Hfit Hopen Hr).
  rewrite Hafter. cbn [prepend].
  unfold bind at 1. unfold free_driver_list. rewrite Hfree.
  destruct (rf =? SUCCESS)%Z; cbn [negb];
    cbv [bind eprintf emit ret prepend finalize];
    rewrite Hexit; cbv beta iota; rewrite Z.eqb_refl; cbn [negb];
    rewrite <- ?app_assoc; cbn [app]; rewrite <- ?app_assoc;
    reflexivity.
Qed.

End Main_sequence.

Lemma finalize_fails_after_success :
  parse_options (L := nat) (handle := string) "0.1"
    (Getopt.getopt_long optstring options ["lsopentmf"]) 0 0 0
  = Ret (0%Z, 0%Z) 0 []
  /\ list_drivers (Sim.library (Sim.Config 0 0 [Sim.plain "a" 0 []] 7)) 0 0 tt 0
     = Ret EXIT_SUCCESS 0
         [ Call_get_driver_list 0 ["a"];
           Call_open "opentmf://a" 0 "opentmf://a";
           Print Stdout ("a" ++ NL);
           Call_close "opentmf://a";
           Call_free_driver_list 0 ]
  /\ Sim.run (Sim.Config 0 0 [Sim.plain "a" 0 []] 7) ["lsopentmf"]
     = Ret EXIT_FAILURE 0
         [ Call_init 0;
           Call_get_driver_list 0 ["a"];
           Call_open "opentmf://a" 0 "opentmf://a";
           Print Stdout ("a" ++ NL);
           Call_close "opentmf://a";
           Call_free_driver_list 0;
           Call_exit 7;
           Print Stderr ("Error finalizing library: Failure (7)" ++ NL) ].
Proof.
  split; [reflexivity|]. split; [reflexivity|].
  refine (proj1 (finalize_failure_is_fatal
                   (Sim.library (Sim.Config 0 0 [Sim.plain "a" 0 []] 7)) "0.1"
                   ["lsopentmf"] 0 0 0 0 [] tt 0 EXIT_SUCCESS 0 _ 7%Z 0
                   eq_refl eq_refl eq_refl eq_refl _)).
  discriminate.
Defined.

Lemma bench_skips_b :
  opentmf_open (Sim.library bench) tt "opentmf://b" 0 = ((-1)%Z, "", 0)
  /\ Sim.run bench ["lsopentmf"]
     = Ret 0%Z 0
         [ Call_init 0;
           Call_get_driver_list 0 ["a"; "b"; "c"];
           Call_open "opentmf://a" 0 "opentmf://a";
           Print Stdout ("a" ++ NL);
           Call_close "opentmf://a";
           Call_open "opentmf://b" (-1) "";
           Print Stderr ("Error opening driver `b`: Failure (-1)" ++ NL);
           Call_open "opentmf://c" 0 "opentmf://c";
           Print Stdout ("c" ++ NL);
           Call_close "opentmf://c";
           Call_free_driver_list 0;
           Call_exit 0 ].
Proof.
  split; [reflexivity|].
  refine (failed_driver_is_skipped (Sim.library bench) "0.1"
            ["lsopentmf"] 0 0 0 0 [] tt 0 ["a"] ["c"] "b" 0
            1024 "opentmf://a" 0 _ (-1) "" 0 1024 "opentmf://c" 0 _ 0 0 0
            eq_refl eq_refl eq_refl eq_refl _ eq_refl _ eq_refl eq_refl eq_refl).
  - reflexivity.
  - discriminate.
Defined.

(** ** Handles *)

Section Handles.

Context {L context handle : Type}.
Variable lib : opentmf L context handle.
Variable PACKAGE_VERSION : string.
Implicit Types (s : L) (t td : list (event handle)) (ctx : context).

Abbreviation OK := (OPENTMF_SUCCESS lib).

Lemma calls_app t t' : calls (t ++ t')%list = (calls t ++ calls t')%list.
Proof. apply filter_app. Qed.

Abbreviation quiet := (@prints_only L handle _).

Lemma quiet_ret {A} (a : A) : quiet (ret a).
Proof. intros s. reflexivity. Qed.

Lemma quiet_undefined {A} : quiet (undefined (A := A)).
Proof. intros s. reflexivity. Qed.

Lemma quiet_exit {A} (c : Z) : quiet (exit (A := A) c).
Proof. intros s. reflexivity. Qed.

Lemma quiet_printf (x : string) : quiet (printf x).
Proof. intros s. reflexivity. Qed.

Lemma quiet_eprintf (x : string) : quiet (eprintf x).
Proof. intros s. reflexivity. Qed.

Lemma quiet_bind {A B} (m : M A) (k : A -> M B) :
  quiet m -> (forall a, quiet (k a)) -> quiet (bind m k).
Proof.
  intros Hm Hk s. unfold bind. specialize (Hm s).
  destruct (m s) as [a s' t1| |]; try exact Hm.
  rewrite trace_of_prepend, calls_app. simpl in Hm. rewrite Hm. apply Hk.
Qed.

Lemma quiet_printf_each (l : list string) : quiet (printf_each l).
Proof.
  intros s. rewrite printf_each_run. simpl.
  induction l; simpl; auto.
Qed.

Lemma quiet_print_multi_line (label text : string) :
  quiet (print_multi_line label text).
Proof.
  unfold print_multi_line. destruct (print_multi_line_out label text) as [out []];
    apply quiet_bind; intros;
    auto using quiet_printf_each, quiet_ret, quiet_undefined.
Qed.

Create HintDb quiet.

#[local] Hint Resolve quiet_ret quiet_undefined quiet_exit quiet_printf
  quiet_eprintf quiet_printf_each quiet_print_multi_line : quiet.

Ltac quiet :=
  repeat first
    [ apply quiet_bind; [|intros ?]
    | match goal with |- quiet (if ?b then _ else _) => destruct b end
    | solve [auto with quiet] ].

Lemma quiet_show_driver verbose (info : opentmf_driver_info) :
  quiet (show_driver verbose info).
Proof.
  destruct verbose as [|[[]|[]|]|]; cbn [show_driver]; quiet.
Qed.

Lemma quiet_show_device verbose (device : string)
    (device_info : opentmf_device_info) :
  quiet (show_device verbose device device_info).
Proof.
  destruct verbose as [|[[]|[]|]|]; cbn [show_device]; quiet.
Qed.

Lemma quiet_parse_options (steps : list Getopt.step) :
  forall verbose show_devices,
  quiet (parse_options PACKAGE_VERSION steps verbose show_devices).
Proof.
  induction steps as [|[r said] steps IH]; intros verbose show_devices.
  - apply quiet_ret.
  - cbn [parse_options]. apply quiet_bind.
    + destruct said; [intros s; reflexivity|apply quiet_ret].
    + intros _.
      destruct r as [[] [] [] [] [] [] [] []];
        first [apply IH | unfold print_help, print_version; quiet].
Qed.

(** A computation that returned, and only prints, has made no call. *)
Lemma quiet_returns {A} (m : M A) s a s' t :
  quiet m -> m s = Ret a s' t -> calls t = [].
Proof. intros Hq H. specialize (Hq s). rewrite H in Hq. exact Hq. Qed.

(** *** What the steps of a round leave when they return *)

Lemma terminate_at_returns url_size i url s u s' t :
  terminate_at url_size i url s = Ret u s' t ->
  u = precision i url /\ t = [].
Proof.
  unfold terminate_at. destruct (Z.of_nat i <? url_size)%Z; [|discriminate].
  intros [= <- _ <-]. auto.
Qed.

Lemma strcat_returns url_size url src s u s' t :
  strcat url_size url src s = Ret u s' t -> u = url ++ src /\ t = [].
Proof.
  unfold strcat.
  destruct (Z.of_nat (String.length url + String.length src) <? url_size)%Z;
    [|discriminate].
  intros [= <- _ <-]. auto.
Qed.

Lemma open_returns ctx url s r h s' t :
  open lib ctx url s = Ret (r, h) s' t -> t = [Call_open url r h].
Proof.
  unfold open. destruct (opentmf_open lib ctx url s) as [[r' h'] s''].
  intros [= <- <- _ <-]. reflexivity.
Qed.

Lemma precision_prefix (a b : string) : precision (String.length a) (a ++ b) = a.
Proof.
  induction a as [|c a IH]; [destruct b; reflexivity|].
  cbn [String.length append]. rewrite precision_S, IH. reflexivity.
Qed.

Lemma device_round_returns verbose ctx url_size len device url s u s' t :
  device_round lib verbose ctx url_size len device url s = Ret u s' t ->
  u = precision len url ++ device
  /\ exists r h,
       (r = OK /\ calls t = [Call_open u OK h; Call_close h])
       \/ (r <> OK /\ calls t = [Call_open u r h]).
Proof.
  unfold device_round. intros H.
  apply bind_returns in H as (u1 & s1 & t1 & t1' & H1 & H & ->).
  apply terminate_at_returns in H1 as [-> ->].
  apply bind_returns in H as (u2 & s2 & t2 & t2' & H2 & H & ->).
  apply strcat_returns in H2 as [-> ->].
  apply bind_returns in H as ([r dev] & s3 & t3 & t3' & H3 & H & ->).
  apply open_returns in H3 as ->.
  apply bind_returns in H as ([] & s4 & t4 & t4' & H4 & H & ->).
  injection H as <- _ <-. split; [reflexivity|].
  exists r, dev. destruct (Z.eqb_spec r OK) as [->|Hr]; [left|right].
  - split; [reflexivity|].
    apply bind_returns in H4 as (info & s5 & t5 & t5' & H5 & H4 & ->).
    injection H5 as _ _ <-.
    apply bind_returns in H4 as ([] & s6 & t6 & t6' & H6 & H4 & ->).
    apply (quiet_returns _ _ _ _ _ (quiet_show_device _ _ _)) in H6.
    injection H4 as _ <-.
    cbn [app]. rewrite app_nil_r. cbn [calls filter is_call].
    fold (calls (t6 ++ [Call_close dev])%list).
    rewrite calls_app, H6. reflexivity.
  - split; [assumption|]. injection H4 as _ <-. reflexivity.
Qed.

Lemma devices_loop_returns verbose ctx url_size (base : string)
    (devices : list string) :
  forall url s u s' t,
  precision (String.length base) url = base ->
  devices_loop lib verbose ctx url_size (String.length base) devices url s
  = Ret u s' t ->
  device_calls OK base devices (calls t).
Proof.
  induction devices as [|device rest IH]; intros url s u s' t Hbase H.
  - injection H as _ _ <-. constructor.
  - cbn [devices_loop] in H.
    apply bind_returns in H as (u1 & s1 & t1 & t1' & H1 & H & ->).
    apply device_round_returns in H1 as [-> (r & h & [[-> E]|[Hr E]])];
      rewrite Hbase in *; rewrite calls_app, E;
      apply IH in H; try apply precision_prefix.
    + apply device_opened. exact H.
    + apply device_failed; assumption.
Qed.

Lemma list_devices_returns verbose show_devices ctx drv url_size url s u s' t :
  list_devices lib verbose show_devices ctx drv url_size url s = Ret u s' t ->
  devices_part OK show_devices url drv (calls t).
Proof.
  unfold list_devices. destruct (Z.eqb_spec show_devices 0) as [->|Hd].
  - intros [= _ _ <-]. constructor. reflexivity.
  - intros H.
    apply bind_returns in H as ([r l] & s1 & t1 & t1' & H1 & H & ->).
    assert (t1 = [Call_get_device_list drv r l]) as ->.
    { unfold drv_get_device_list in H1.
      destruct (opentmf_drv_get_device_list lib drv s) as [[r' l'] s''].
      injection H1 as <- <- _ <-. reflexivity. }
    destruct (Z.eqb_spec r OK) as [->|Hr].
    + apply bind_returns in H as (u2 & s2 & t2 & t2' & H2 & H & ->).
      apply devices_loop_returns in H2;
        [|rewrite <- (append_nil_r url) at 2; apply precision_prefix].
      apply bind_returns in H as (rf & s3 & t3 & t3' & H3 & H & ->).
      assert (t3 = [Call_free_device_list drv rf]) as ->.
      { unfold drv_free_device_list in H3.
        destruct (opentmf_drv_free_device_list lib drv l s2) as [r' s''].
        injection H3 as <- _ <-. reflexivity. }
      apply bind_returns in H as ([] & s4 & t4 & t4' & H4 & H & ->).
      injection H as _ _ <-.
      assert (calls t4 = []) as E.
      { destruct (negb (rf =? OK)%Z); injection H4 as _ <-; reflexivity. }
      cbn [app]. cbn [calls filter is_call]. fold (calls (t2 ++ Call_free_device_list drv rf :: t4 ++ [])%list).
      rewrite calls_app. cbn [calls filter is_call].
      fold (calls (t4 ++ [])%list). rewrite calls_app, E.
      apply devices_listed; assumption.
    + apply bind_returns in H as ([] & s2 & t2 & t2' & H2 & H & ->).
      injection H2 as _ <-. injection H as _ _ <-.
      apply devices_not_listed; assumption.
Qed.

Lemma driver_round_returns verbose show_devices ctx name url_size url s u s' t :
  driver_round lib verbose show_devices ctx name url_size url s = Ret u s' t ->
  (exists h td,
      calls t = (Call_open ("opentmf://" ++ name) OK h :: td ++ [Call_close h])%list
      /\ devices_part OK show_devices ("opentmf://" ++ name) h td)
  \/ (exists r h,
        r <> OK /\ calls t = [Call_open ("opentmf://" ++ name) r h]).
Proof.
  unfold driver_round. intros H.
  apply bind_returns in H as (u1 & s1 & t1 & t1' & H1 & H & ->).
  apply terminate_at_returns in H1 as [-> ->].
  replace (precision 0 url) with "" in H by (destruct url; reflexivity).
  apply bind_returns in H as (u2 & s2 & t2 & t2' & H2 & H & ->).
  apply strcat_returns in H2 as [-> ->].
  apply bind_returns in H as (u3 & s3 & t3 & t3' & H3 & H & ->).
  apply strcat_returns in H3 as [-> ->].
  apply bind_returns in H as ([r drv] & s4 & t4 & t4' & H4 & H & ->).
  apply open_returns in H4 as ->.
  change ("" ++ "opentmf://") with "opentmf://" in *.
  destruct (Z.eqb_spec r OK) as [->|Hr]; [left|right].
  - apply bind_returns in H as (info & s5 & t5 & t5' & H5 & H & ->).
    injection H5 as _ _ <-.
    apply bind_returns in H as ([] & s6 & t6 & t6' & H6 & H & ->).
    apply (quiet_returns _ _ _ _ _ (quiet_show_driver _ _)) in H6.
    apply bind_returns in H as (u7 & s7 & t7 & t7' & H7 & H & ->).
    apply list_devices_returns in H7.
    apply bind_returns in H as ([] & s8 & t8 & t8' & H8 & H & ->).
    injection H8 as _ <-. injection H as _ _ <-.
    exists drv, (calls t7). split; [|assumption].
    cbn [app]. cbn [calls filter is_call].
    fold (calls (t6 ++ t7 ++ [Call_close drv])%list).
    rewrite !calls_app, H6. reflexivity.
  - exists r, drv. split; [assumption|].
    apply bind_returns in H as ([] & s5 & t5 & t5' & H5 & H & ->).
    injection H5 as _ <-. injection H as _ _ <-. reflexivity.
Qed.

Lemma drivers_loop_returns verbose show_devices ctx (names : list string) :
  forall url_size url s x s' t,
  drivers_loop lib verbose show_devices ctx names url_size url s = Ret x s' t ->
  driver_calls OK show_devices names (calls t).
Proof.
  induction names as [|name rest IH]; intros url_size url s x s' t H.
  - injection H as _ _ <-. constructor.
  - cbn [drivers_loop] in H.
    apply bind_returns in H as (u1 & s1 & t1 & t1' & H1 & H & ->).
    apply IH in H. rewrite calls_app.
    apply driver_round_returns in H1
      as [(h & td & -> & Hd)|(r & h & Hr & ->)].
    + cbn [app]. rewrite <- app_assoc. apply driver_opened; assumption.
    + apply driver_failed; assumption.
Qed.

Lemma prepend_returns {A} t0 (o : outcome L handle A) a s t :
  prepend t0 o = Ret a s t -> exists t', o = Ret a s t' /\ t = (t0 ++ t')%list.
Proof.
  destruct o as [a' s' t'| |]; try discriminate.
  intros [= <- <- <-]. eauto.
Qed.

(** Under the discipline the open attempts made while nothing is open
    are those of the drivers. *)
Lemma device_calls_inner (base : string) (devices : list string) td :
  device_calls OK base devices td ->
  forall rest, outer_attempts OK 1 (td ++ rest)%list = outer_attempts OK 1 rest.
Proof.
  induction 1 as [|device ds h t _ IH|device ds r h t Hr _ IH]; intros rest.
  - reflexivity.
  - cbn [app outer_attempts]. rewrite Z.eqb_refl.
    cbn [Nat.pred]. apply IH.
  - cbn [app outer_attempts]. apply Z.eqb_neq in Hr. rewrite Hr. apply IH.
Qed.

Lemma devices_part_inner show_devices (base : string) (drv : handle) td :
  devices_part OK show_devices base drv td ->
  forall rest, outer_attempts OK 1 (td ++ rest)%list = outer_attempts OK 1 rest.
Proof.
  intros [_|r l _ _|l t r _ Hd] rest; try reflexivity.
  cbn [app outer_attempts]. rewrite <- app_assoc.
  rewrite (device_calls_inner _ _ _ Hd). reflexivity.
Qed.

Lemma driver_calls_attempts show_devices (names : list string) t :
  driver_calls OK show_devices names t ->
  outer_attempts OK 0 t = map (append "opentmf://") names.
Proof.
  induction 1 as [|name rest h td t Hd _ IH|name rest r h t Hr _ IH].
  - reflexivity.
  - cbn [outer_attempts map]. rewrite Z.eqb_refl.
    rewrite (devices_part_inner _ _ _ _ Hd).
    cbn [outer_attempts Nat.pred]. rewrite IH. reflexivity.
  - cbn [outer_attempts map]. apply Z.eqb_neq in Hr. rewrite Hr, IH.
    reflexivity.
Qed.

(** C5, as the program has it. In a run that returns (it has not written
    past the URL buffer), for the list of [N] names the library returned
    the calls between the retrieval of the list and its release are: one
    open attempt for each name, in list order and [N] in all at the outer
    level; for a driver that opened, its devices (each one opened and,
    when it did open, closed before anything else is opened) and then the
    one close of the driver, before the next driver is attempted; no
    close for an attempt that failed.  A driver handle thus stays open
    across the open attempts of its own devices. *)
Theorem handles_are_nested argv verbose show_devices
    s0 s0' t0 ctx s1 (names : list string) s2 status s' t :
  parse_options PACKAGE_VERSION
    (Getopt.getopt_long optstring options argv) 0 0 s0
  = Ret (verbose, show_devices) s0' t0 ->
  opentmf_init lib s0' = (OK, ctx, s1) ->
  opentmf_get_driver_list lib ctx s1 = (OK, names, s2) ->
  main lib PACKAGE_VERSION argv s0 = Ret status s' t ->
  exists loop rf re,
    calls t = ([Call_init OK; Call_get_driver_list OK names]
                 ++ loop ++ [Call_free_driver_list rf; Call_exit re])%list
    /\ driver_calls OK show_devices names loop
    /\ outer_attempts OK 0 loop = map (append "opentmf://") names
    /\ List.length (outer_attempts OK 0 loop) = List.length names.
Proof.
  intros Hopts Hinit Hlist H.
  rewrite (main_initialized _ _ _ _ _ _ _ _ _ _ Hopts Hinit) in H.
  apply prepend_returns in H as (t1 & H & ->).
  apply (quiet_returns _ _ _ _ _ (quiet_parse_options _ _ _)) in Hopts.
  unfold after_init in H.
  apply bind_returns in H as (st & s3 & t2 & t2' & H2 & H & ->).
  apply bind_returns in H as (re & s4 & t3 & t3' & H3 & H & ->).
  assert (t3 = [Call_exit re]) as ->.
  { unfold finalize in H3. destruct (opentmf_exit lib ctx s3) as [r' s''].
    injection H3 as <- _ <-. reflexivity. }
  assert (calls t3' = []) as E3.
  { destruct (negb (re =? OK)%Z); injection H as _ _ <-; reflexivity. }
  unfold list_drivers in H2.
  apply bind_returns in H2 as ([r l] & s5 & t5 & t5' & H5 & H2 & ->).
  unfold get_driver_list in H5. rewrite Hlist in H5.
  injection H5 as <- <- <- <-. rewrite Z.eqb_refl in H2.
  apply bind_returns in H2 as (x & s6 & t6 & t6' & H6 & H2 & ->).
  apply drivers_loop_returns in H6.
  apply bind_returns in H2 as (rf & s7 & t7 & t7' & H7 & H2 & ->).
  assert (t7 = [Call_free_driver_list rf]) as ->.
  { unfold free_driver_list in H7.
    destruct (opentmf_free_driver_list lib ctx names s6) as [r' s''].
    injection H7 as <- _ <-. reflexivity. }
  apply bind_returns in H2 as ([] & s8 & t8 & t8' & H8 & H2 & ->).
  injection H2 as _ _ <-.
  assert (calls t8 = []) as E8.
  { destruct (negb (rf =? OK)%Z); injection H8 as _ <-; reflexivity. }
  exists (calls t6), rf, re.
  pose proof (driver_calls_attempts _ _ _ H6) as Ha.
  repeat split; try assumption.
  - rewrite !calls_app, Hopts, E3. cbn [app calls filter is_call].
    rewrite E8, <- app_assoc. reflexivity.
  - rewrite Ha. apply length_map.
Qed.

End Handles.

Lemma bench_devices_nested :
  exists loop rf re,
    calls (trace_of (Sim.run bench ["lsopentmf"; "-d"]))
    = ([Call_init 0; Call_get_driver_list 0 ["a"; "b"; "c"]]
         ++ loop ++ [Call_free_driver_list rf; Call_exit re])%list
    /\ driver_calls 0 1 ["a"; "b"; "c"] loop
    /\ outer_attempts 0 0 loop = map (append "opentmf://") ["a"; "b"; "c"]
    /\ List.length (outer_attempts 0 0 loop) = 3.
Proof.
  exact (handles_are_nested (Sim.library bench) "0.1" ["lsopentmf"; "-d"]
           0 1 0 0 [] tt 0 ["a"; "b"; "c"] 0 0%Z 0 _
           eq_refl eq_refl eq_refl eq_refl).
Defined.

(** C5, as stated, fails: with [-d] the device of driver [a] is opened
    while the handle of [a] is still open. *)
Lemma driver_open_across_device :
  opens_and_closes (trace_of (Sim.run bench ["lsopentmf"; "-d"]))
  = [ Call_open "opentmf://a" 0 "opentmf://a";
      Call_open "opentmf://a/0" 0 "opentmf://a/0";
      Call_close "opentmf://a/0";
      Call_close "opentmf://a";
      Call_open "opentmf://b" (-1) "";
      Call_open "opentmf://c" 0 "opentmf://c";
      Call_close "opentmf://c" ]
  /\ ~ closed_before_next_open 0
        (opens_and_closes (trace_of (Sim.run bench ["lsopentmf"; "-d"]))).
Proof.
  split; [reflexivity|].
  intros H. vm_compute in H. inversion H; subst; congruence.
Qed.

(** ** The URL buffer *)

(** The one doubling is enough for a name that is shorter than twice the
    size of the buffer, less the ten bytes of the scheme. *)
Lemma grow_fits (url_size : Z) (driver_name : string) :
  (0 < url_size < 2 ^ 63)%Z ->
  (10 + Z.of_nat (String.length driver_name) < 2 * url_size)%Z ->
  (10 + Z.of_nat (String.length driver_name) < grow url_size driver_name)%Z.
Proof.
  intros Hsize Hlen. unfold grow, size_t.
  rewrite (Z.mod_small (10 + _)%Z) by lia.
  destruct (Z.geb_spec (10 + Z.of_nat (String.length driver_name)) url_size).
  - rewrite Z.mod_small by lia. lia.
  - lia.
Qed.

(** C1 fails on the program. The buffer is doubled once, not until the
    URL fits: for a driver name of 2100 letters it has 2048 bytes when
    [strcat] stores 2111. And nothing grows it for a device path: with a
    path of 1100 letters under the driver [a], [strcat] stores 1112 bytes
    in the 1024 there are. Both runs stop at the store past the end. *)
Theorem url_buffer_overflow :
  grow 1024 (letters 2100) = 2048%Z
  /\ (2048 < Z.of_nat (String.length ("opentmf://" ++ letters 2100)) + 1)%Z
  /\ Sim.run (Sim.Config 0 0 [Sim.plain (letters 2100) 0 []] 0) ["lsopentmf"]
     = Undefined [Call_init 0; Call_get_driver_list 0 [letters 2100]]
  /\ (1024 < Z.of_nat (String.length ("opentmf://a" ++ letters 1100)) + 1)%Z
  /\ Sim.run (Sim.Config 0 0 [Sim.plain "a" 0 [Sim.dev (letters 1100)]] 0)
       ["lsopentmf"; "-d"]
     = Undefined
         [ Call_init 0;
           Call_get_driver_list 0 ["a"];
           Call_open "opentmf://a" 0 "opentmf://a";
           Print Stdout ("a" ++ NL);
           Call_get_device_list "opentmf://a" 0 [letters 1100] ].
Proof.
  split; [vm_compute; reflexivity|].
  split; [vm_compute; reflexivity|].
  split; [vm_compute; reflexivity|].
  split; vm_compute; reflexivity.
Qed.

(** ** Runs without undefined operations *)

Section Defined_runs.

Context {L context handle : Type}.
Variable lib : opentmf L context handle.
Variable PACKAGE_VERSION : string.
Implicit Types (s : L) (t : list (event handle)) (ctx : context).

Abbreviation returns := (@returns L handle _).

Lemma returns_ret {A} (a : A) (P : A -> Prop) : P a -> returns (ret a) P.
Proof. intros Pa s. exists a, s, []. auto. Qed.

Lemma returns_bind {A B} (m : M A) (k : A -> M B) (P : A -> Prop) (Q : B -> Prop) :
  returns m P -> (forall a, P a -> returns (k a) Q) -> returns (bind m k) Q.
Proof.
  intros Hm Hk s. destruct (Hm s) as (a & s' & t & E & Pa).
  destruct (Hk a Pa s') as (b & s'' & t' & E' & Qb).
  exists b, s'', (t ++ t')%list. unfold bind. rewrite E, E'. auto.
Qed.

Lemma returns_emit (e : event handle) : returns (emit e) (fun _ => True).
Proof. intros s. exists tt, s, [e]. auto. Qed.

Lemma returns_printf_each (l : list string) :
  returns (printf_each l) (fun _ => True).
Proof. intros s. rewrite printf_each_run. eauto. Qed.

Lemma length_precision (n : nat) : forall u : string,
  String.length (precision n u) <= n.
Proof.
  induction n as [|n IH]; intros [|a u]; simpl; auto with arith.
Qed.

Lemma returns_terminate_at url_size (i : nat) (url : string) :
  (Z.of_nat i < url_size)%Z ->
  returns (terminate_at url_size i url) (fun u => String.length u <= i).
Proof.
  intros H s. unfold terminate_at.
  destruct (Z.ltb_spec (Z.of_nat i) url_size); [|lia].
  exists (precision i url), s, []. split; [reflexivity|apply length_precision].
Qed.

Lemma returns_strcat url_size (url src : string) :
  (Z.of_nat (String.length url + String.length src) < url_size)%Z ->
  returns (strcat url_size url src) (fun u => u = url ++ src).
Proof.
  intros H s. unfold strcat.
  destruct (Z.ltb_spec (Z.of_nat (String.length url + String.length src))
              url_size); [|lia].
  exists (url ++ src), s, []. auto.
Qed.

Lemma returns_print_multi_line (label text : string) :
  (Z.of_nat (String.length text) <= INT_MAX)%Z ->
  returns (print_multi_line label text) (fun _ => True).
Proof.
  intros Hmax. unfold print_multi_line, print_multi_line_out.
  destruct (strchr text nl).
  - destruct (indent_lines_spec _ text (le_n _) Hmax) as (out & rest & -> & _).
    cbn [fst snd].
    apply (returns_bind _ _ _ _ (returns_printf_each _)).
    intros _ _. apply returns_ret. exact I.
  - apply (returns_bind _ _ _ _ (returns_printf_each _)).
    intros _ _. apply returns_ret. exact I.
Qed.

Ltac returns :=
  repeat first
    [ eapply returns_bind; [|intros ? ?]
    | match goal with |- returns (if ?b then _ else _) _ => destruct b end
    | apply returns_emit
    | apply returns_ret; exact I
    | apply returns_print_multi_line; assumption ].

Lemma returns_show_driver verbose (info : opentmf_driver_info) :
  (Z.of_nat (String.length (description info)) <= INT_MAX)%Z ->
  (Z.of_nat (String.length (authors info)) <= INT_MAX)%Z ->
  returns (show_driver verbose info) (fun _ => True).
Proof.
  intros Hd Ha.
  destruct verbose as [|[[]|[]|]|]; cbn [show_driver]; unfold printf; returns.
Qed.

Lemma returns_show_device verbose (device : string)
    (device_info : opentmf_device_info) :
  returns (show_device verbose device device_info) (fun _ => True).
Proof.
  destruct verbose as [|[[]|[]|]|]; cbn [show_device]; unfold printf; returns.
Qed.

(** Every driver name, with any device path behind it, leaves room in
    the first 1024 bytes, and no text is longer than an [int] counts. *)
Variable longest : Z.

Hypothesis names_short : forall ctx s,
  Forall (fun n => (10 + Z.of_nat (String.length n) + longest < 1024)%Z)
    (snd (fst (opentmf_get_driver_list lib ctx s))).

Hypothesis paths_short : forall drv s,
  Forall (fun p => (Z.of_nat (String.length p) <= longest)%Z)
    (snd (fst (opentmf_drv_get_device_list lib drv s))).

Hypothesis texts_short : forall drv s,
  (Z.of_nat (String.length (description (opentmf_drv_get_info lib drv s)))
   <= INT_MAX)%Z
  /\ (Z.of_nat (String.length (authors (opentmf_drv_get_info lib drv s)))
      <= INT_MAX)%Z.

Lemma returns_device_round verbose ctx url_size (len : nat) (device url : string) :
  (Z.of_nat len + Z.of_nat (String.length device) < url_size)%Z ->
  returns (device_round lib verbose ctx url_size len device url)
    (fun _ => True).
Proof.
  intros H. unfold device_round.
  eapply returns_bind; [apply returns_terminate_at; lia|].
  intros u Hu. cbv beta in Hu.
  eapply returns_bind; [apply returns_strcat; lia|].
  intros u' _. eapply returns_bind with (P := fun _ => True).
  { intros s. unfold open.
    destruct (opentmf_open lib ctx u' s) as [[r h] s'].
    exists (r, h), s', [Call_open u' r h]. split; [reflexivity|exact I]. }
  intros [r dev] _. eapply returns_bind; [|intros; apply returns_ret; exact I].
  destruct (r =? OPENTMF_SUCCESS lib)%Z; [|apply returns_emit].
  eapply returns_bind with (P := fun _ => True).
  { intros s. exists (opentmf_dev_get_info lib dev s), s, [].
    split; [reflexivity|exact I]. }
  intros info _. eapply returns_bind; [apply returns_show_device|].
  intros _ _ s. exists tt, (opentmf_close lib dev s), [Call_close dev].
  split; [reflexivity|exact I].
Qed.

Lemma returns_devices_loop verbose ctx url_size (len : nat)
    (devices : list string) :
  Forall (fun p => (Z.of_nat len + Z.of_nat (String.length p) < url_size)%Z)
    devices ->
  forall url,
  returns (devices_loop lib verbose ctx url_size len devices url)
    (fun _ => True).
Proof.
  induction 1 as [|p devices Hp _ IH]; intros url.
  - apply returns_ret. exact I.
  - cbn [devices_loop].
    eapply returns_bind; [apply returns_device_round; exact Hp|].
    intros u _. apply IH.
Qed.

Lemma returns_list_devices verbose show_devices ctx drv url_size (url : string) :
  (Z.of_nat (String.length url) + longest < url_size)%Z ->
  returns (list_devices lib verbose show_devices ctx drv url_size url)
    (fun _ => True).
Proof.
  intros H. unfold list_devices.
  destruct (show_devices =? 0)%Z; [apply returns_ret; exact I|].
  eapply returns_bind with
    (P := fun x => Forall (fun p => (Z.of_nat (String.length p) <= longest)%Z)
                     (snd x)).
  { intros s. unfold drv_get_device_list.
    pose proof (paths_short drv s) as Hl.
    destruct (opentmf_drv_get_device_list lib drv s) as [[r l] s'].
    exists (r, l), s', [Call_get_device_list drv r l].
    split; [reflexivity|exact Hl]. }
  intros [r l] Hl. cbn [snd] in Hl.
  destruct (r =? OPENTMF_SUCCESS lib)%Z.
  - eapply returns_bind.
    { apply returns_devices_loop.
      eapply Forall_impl; [|exact Hl]. cbv beta. intros p Hp. lia. }
    intros u _. eapply returns_bind with (P := fun _ => True).
    { intros s. unfold drv_free_device_list.
      destruct (opentmf_drv_free_device_list lib drv l s) as [r' s'].
      exists r', s', [Call_free_device_list drv r'].
      split; [reflexivity|exact I]. }
    intros rf _. unfold eprintf. returns.
  - unfold eprintf. returns.
Qed.

Lemma returns_driver_round verbose show_devices ctx (name : string)
    url_size (url : string) :
  (10 + Z.of_nat (String.length name) + longest < url_size)%Z ->
  (0 <= longest)%Z ->
  returns (driver_round lib verbose show_devices ctx name url_size url)
    (fun _ => True).
Proof.
  intros H HB. unfold driver_round.
  eapply returns_bind; [apply returns_terminate_at; lia|].
  intros u Hu. cbv beta in Hu.
  assert (u = "") as -> by (destruct u; [reflexivity|simpl in Hu; lia]).
  eapply returns_bind; [apply returns_strcat; simpl; lia|].
  intros u' ->. eapply returns_bind; [apply returns_strcat; simpl; lia|].
  intros u' ->. eapply returns_bind with (P := fun _ => True).
  { intros s. unfold open.
    destruct (opentmf_open lib ctx ("" ++ "opentmf://" ++ name) s)
      as [[r h] s'] eqn:E.
    exists (r, h), s', [Call_open ("opentmf://" ++ name) r h].
    change (("" ++ "opentmf://") ++ name) with ("opentmf://" ++ name).
    change ("" ++ "opentmf://" ++ name) with ("opentmf://" ++ name) in E.
    rewrite E. split; [reflexivity|exact I]. }
  intros [r drv] _.
  destruct (r =? OPENTMF_SUCCESS lib)%Z; [|unfold eprintf; returns].
  eapply returns_bind with
    (P := fun info =>
            (Z.of_nat (String.length (description info)) <= INT_MAX)%Z
            /\ (Z.of_nat (String.length (authors info)) <= INT_MAX)%Z).
  { intros s. exists (opentmf_drv_get_info lib drv s), s, [].
    split; [reflexivity|apply texts_short]. }
  intros info [Hd Ha].
  eapply returns_bind; [apply returns_show_driver; assumption|].
  intros _ _. eapply returns_bind.
  { apply returns_list_devices.
    change (("" ++ "opentmf://") ++ name) with ("opentmf://" ++ name).
    rewrite append_length. change (String.length "opentmf://") with 10. lia. }
  intros u _. eapply returns_bind with (P := fun _ => True);
    [|intros; apply returns_ret; exact I].
  intros s. exists tt, (opentmf_close lib drv s), [Call_close drv].
  split; [reflexivity|exact I].
Qed.

Hypothesis longest_positive : (0 <= longest)%Z.

(** The loop returns, and the buffer has not been grown. *)
Lemma returns_drivers_loop verbose show_devices ctx (names : list string) :
  Forall (fun n => (10 + Z.of_nat (String.length n) + longest < 1024)%Z) names ->
  forall url,
  returns (drivers_loop lib verbose show_devices ctx names 1024 url)
    (fun x => fst x = 1024%Z).
Proof.
  induction 1 as [|n names Hn _ IH]; intros url.
  - apply returns_ret. reflexivity.
  - cbn [drivers_loop].
    assert (grow 1024 n = 1024%Z) as ->.
    { unfold grow, size_t. rewrite Z.mod_small by lia.
      destruct (Z.geb_spec (10 + Z.of_nat (String.length n)) 1024);
        [lia|reflexivity]. }
    eapply returns_bind; [apply returns_driver_round; assumption|].
    intros u _. apply IH.
Qed.

Lemma returns_list_drivers verbose show_devices ctx :
  returns (list_drivers lib verbose show_devices ctx) (fun _ => True).
Proof.
  unfold list_drivers.
  eapply returns_bind with
    (P := fun x =>
            Forall (fun n => (10 + Z.of_nat (String.length n) + longest < 1024)%Z)
              (snd x)).
  { intros s. unfold get_driver_list.
    pose proof (names_short ctx s) as Hl.
    destruct (opentmf_get_driver_list lib ctx s) as [[r l] s'].
    exists (r, l), s', [Call_get_driver_list r l].
    split; [reflexivity|exact Hl]. }
  intros [r l] Hl. cbn [snd] in Hl.
  destruct (r =? OPENTMF_SUCCESS lib)%Z; [|unfold eprintf; returns].
  eapply returns_bind; [apply returns_drivers_loop; exact Hl|].
  intros x _. eapply returns_bind with (P := fun _ => True).
  { intros s. unfold free_driver_list.
    destruct (opentmf_free_driver_list lib ctx l s) as [r' s'].
    exists r', s', [Call_free_driver_list r'].
    split; [reflexivity|exact I]. }
  intros rf _. unfold eprintf. returns.
Qed.

Lemma defined_prepend {A} t (o : outcome L handle A) :
  defined o -> defined (prepend t o).
Proof. destruct o; exact (fun H => H). Qed.

Lemma defined_bind {A B} (m : M A) (k : A -> M B) s :
  defined (m s) -> (forall a s', defined (k a s')) ->
  defined (bind (L := L) (handle := handle) m k s).
Proof.
  intros Hm Hk. unfold bind. destruct (m s); try exact Hm.
  apply defined_prepend, Hk.
Qed.

Lemma returns_defined {A} (m : M A) (P : A -> Prop) s :
  returns m P -> defined (m s).
Proof. intros H. destruct (H s) as (a & s' & t & -> & _). exact I. Qed.

(** The option loop returns or exits. *)
Lemma parse_options_defined (steps : list Getopt.step) :
  forall verbose show_devices s,
  defined (parse_options (handle := handle) PACKAGE_VERSION steps
             verbose show_devices s).
Proof.
  induction steps as [|[r said] steps IH]; intros verbose show_devices s.
  - exact I.
  - cbn [parse_options]. apply defined_bind.
    + destruct said; exact I.
    + intros _ s'.
      destruct r as [[] [] [] [] [] [] [] []];
        first [apply IH | exact I].
Qed.

(** X18. With a library whose driver names, with any of its device paths
    behind them, stay within the first 1024 bytes of the buffer, and
    whose texts are no longer than [INT_MAX], no run of [main] reaches
    an undefined operation, with or without [-d]: it returns or
    exits. *)
Theorem main_defined (argv : list string) s :
  defined (main lib PACKAGE_VERSION argv s).
Proof.
  unfold main. apply defined_bind; [apply parse_options_defined|].
  intros [verbose show_devices] s0.
  apply returns_defined with (P := fun _ => True).
  eapply returns_bind with (P := fun _ => True).
  { intros s1. unfold init.
    destruct (opentmf_init lib s1) as [[r ctx] s'].
    exists (r, ctx), s', [Call_init r]. split; [reflexivity|exact I]. }
  intros [r ctx] _.
  destruct (negb (r =? OPENTMF_SUCCESS lib)%Z); [unfold eprintf; returns|].
  eapply returns_bind; [apply returns_list_drivers|].
  intros status _. eapply returns_bind with (P := fun _ => True).
  { intros s1. unfold finalize.
    destruct (opentmf_exit lib ctx s1) as [r' s'].
    exists r', s', [Call_exit r']. split; [reflexivity|exact I]. }
  intros r' _. unfold eprintf. returns.
Qed.

End Defined_runs.

(** * Further properties *)

(** ** Options *)

Section More_options.

Context {L context handle : Type}.
Variable lib : opentmf L context handle.
Variable PACKAGE_VERSION : string.
Implicit Types (s : L) (verbose show_devices : Z).

Abbreviation scan' := (Getopt.scan optstring options).
Abbreviation parse' :=
  (parse_options (L := L) (handle := handle) PACKAGE_VERSION).

(** X1. [-h] or [--help], read before any option other than [-d] and
    [-v], makes the program print the usage text on standard output and
    exit with status 0 at once: the library is not called and the rest
    of the command line is not read. *)
Theorem help_short_circuits (argv : list string)
    (before after : list Getopt.step) (said : option Getopt.diagnostic) s :
  Getopt.getopt_long optstring options argv
  = (before ++ Getopt.Step "h" said :: after)%list ->
  Forall (fun st => Getopt.code st = "d"%char \/ Getopt.code st = "v"%char)
    before ->
  main lib PACKAGE_VERSION argv s
  = Exit EXIT_SUCCESS s
      (flat_map says before ++ says (Getopt.Step "h" said)
         ++ [Print Stdout help_text])%list.
Proof.
  intros Hscan Hflags. unfold main. rewrite Hscan.
  destruct (parse_flags (handle := handle) PACKAGE_VERSION before
              (Getopt.Step "h" said :: after) Hflags 0%Z 0%Z s)
    as (v' & d' & E).
  unfold bind at 1. rewrite E.
  cbn [parse_options]. destruct said; reflexivity.
Qed.

(** X2. [-V] or [--version], read before any option other than [-d] and
    [-v], makes the program print its name and version on standard
    output and exit with status 0 at once, without calling the
    library. *)
Theorem version_short_circuits (argv : list string)
    (before after : list Getopt.step) (said : option Getopt.diagnostic) s :
  Getopt.getopt_long optstring options argv
  = (before ++ Getopt.Step "V" said :: after)%list ->
  Forall (fun st => Getopt.code st = "d"%char \/ Getopt.code st = "v"%char)
    before ->
  main lib PACKAGE_VERSION argv s
  = Exit EXIT_SUCCESS s
      (flat_map says before ++ says (Getopt.Step "V" said)
         ++ [Print Stdout ("lsopentmf (opentmf-utils) "
                             ++ PACKAGE_VERSION ++ NL)])%list.
Proof.
  intros Hscan Hflags. unfold main. rewrite Hscan.
  destruct (parse_flags (handle := handle) PACKAGE_VERSION before
              (Getopt.Step "V" said :: after) Hflags 0%Z 0%Z s)
    as (v' & d' & E).
  unfold bind at 1. rewrite E.
  cbn [parse_options]. destruct said; reflexivity.
Qed.

Lemma flag_count_cons (c : ascii) (st : Getopt.step) (steps : list Getopt.step) :
  flag_count c (st :: steps)
  = (if Ascii.eqb (Getopt.code st) c then 1 else 0) + flag_count c steps.
Proof.
  unfold flag_count. cbn [filter].
  destruct (Ascii.eqb (Getopt.code st) c); reflexivity.
Qed.

(** The option loop over flags only, from any state of its variables. *)
Lemma parse_flags_only (steps : list Getopt.step) :
  Forall (fun st => st = Getopt.good "d" \/ st = Getopt.good "v") steps ->
  forall verbose show_devices s,
  (0 <= verbose <= VERBOSE_MAX)%Z ->
  parse' steps verbose show_devices s
  = Ret (Z.min (verbose + Z.of_nat (flag_count "v" steps)) VERBOSE_MAX,
         if (0 <? flag_count "d" steps)%nat then 1%Z else show_devices) s [].
Proof.
  unfold VERBOSE_MAX.
  induction 1 as [|st steps [->| ->] _ IH]; intros verbose show_devices s Hv.
  - cbn. unfold ret. f_equal. f_equal. lia.
  - rewrite parse_d, IH by assumption.
    rewrite !flag_count_cons. cbn [Getopt.good Getopt.code].
    change (Ascii.eqb "d" "v") with false. change (Ascii.eqb "d" "d") with true.
    cbn [Nat.add].
    change (0 <? S (flag_count "d" steps))%nat with true.
    destruct (0 <? flag_count "d" steps)%nat; reflexivity.
  - rewrite parse_v. unfold VERBOSE_MAX.
    rewrite !flag_count_cons. cbn [Getopt.good Getopt.code].
    change (Ascii.eqb "v" "v") with true. change (Ascii.eqb "v" "d") with false.
    cbn [Nat.add].
    destruct (Z.ltb_spec verbose 2); rewrite IH by lia;
      f_equal; f_equal; lia.
Qed.

(** X3. When the command line holds no option other than [-d] and [-v],
    in any form and any order, the option loop ends with verbosity
    [min(k, 2)] for the [k] flags [-v] and with the device listing on
    exactly when there is a flag [-d]: neither the order of the flags
    nor a repeated [-d] matters, and no diagnostic is written. *)
Theorem flags_accumulate (argv : list string) s :
  Forall (fun st => st = Getopt.good "d" \/ st = Getopt.good "v")
    (Getopt.getopt_long optstring options argv) ->
  parse' (Getopt.getopt_long optstring options argv) 0 0 s
  = Ret (Z.min (Z.of_nat (flag_count "v"
                            (Getopt.getopt_long optstring options argv))) 2,
         if (0 <? flag_count "d"
                    (Getopt.getopt_long optstring options argv))%nat
         then 1%Z else 0%Z) s [].
Proof.
  intros H. rewrite (parse_flags_only _ H) by (unfold VERBOSE_MAX; lia).
  reflexivity.
Qed.

Lemma scan_short_form (ws : list string) :
  scan' (map short_form ws) = scan' ws.
Proof.
  induction ws as [|w ws IH]; [reflexivity|].
  cbn [map]. unfold short_form at 1.
  destruct (String.eqb_spec w "--devices") as [->|_];
    [cbn [Getopt.scan]; rewrite IH; reflexivity|].
  destruct (String.eqb_spec w "--verbose") as [->|_];
    [cbn [Getopt.scan]; rewrite IH; reflexivity|].
  destruct (String.eqb_spec w "--help") as [->|_];
    [cbn [Getopt.scan]; rewrite IH; reflexivity|].
  destruct (String.eqb_spec w "--version") as [->|_];
    [cbn [Getopt.scan]; rewrite IH; reflexivity|].
  cbn [Getopt.scan]. rewrite IH. reflexivity.
Qed.

(** X4. The long options are the short ones: replacing [--devices],
    [--verbose], [--help] and [--version] by [-d], [-v], [-h] and [-V]
    anywhere on the command line leaves the run as it is. *)
Theorem long_options_are_short_options (prog : string) (ws : list string) s :
  main lib PACKAGE_VERSION (prog :: map short_form ws) s
  = main lib PACKAGE_VERSION (prog :: ws) s.
Proof.
  unfold main, Getopt.getopt_long. cbn [tl].
  rewrite scan_short_form. reflexivity.
Qed.

End More_options.

Lemma help_beside_devices :
  Getopt.getopt_long optstring options ["lsopentmf"; "--devices"; "--help"; "-x"]
  = ([Getopt.good "d"] ++ Getopt.Step "h" None
       :: [Getopt.bad (Getopt.Invalid_option "x")])%list
  /\ Sim.run bench ["lsopentmf"; "--devices"; "--help"; "-x"]
     = Exit EXIT_SUCCESS 0 [Print Stdout help_text].
Proof.
  split; [reflexivity|].
  refine (help_short_circuits (Sim.library bench) "0.1"
            ["lsopentmf"; "--devices"; "--help"; "-x"]
            [Getopt.good "d"] [Getopt.bad (Getopt.Invalid_option "x")]
            None 0 eq_refl _).
  constructor; [left; reflexivity|constructor].
Defined.

Lemma version_after_verbose :
  Getopt.getopt_long optstring options ["lsopentmf"; "-vV"]
  = ([Getopt.good "v"] ++ Getopt.Step "V" None :: [])%list
  /\ Sim.run bench ["lsopentmf"; "-vV"]
     = Exit EXIT_SUCCESS 0
         [Print Stdout ("lsopentmf (opentmf-utils) 0.1" ++ NL)].
Proof.
  split; [reflexivity|].
  refine (version_short_circuits (Sim.library bench) "0.1"
            ["lsopentmf"; "-vV"] [Getopt.good "v"] [] None 0 eq_refl _).
  constructor; [right; reflexivity|constructor].
Defined.

Lemma flags_in_any_form :
  Forall (fun st => st = Getopt.good "d" \/ st = Getopt.good "v")
    (Getopt.getopt_long optstring options
       ["lsopentmf"; "-vd"; "x"; "--verb"; "-d"; "-v"])
  /\ parse_options (L := nat) (handle := string) "0.1"
       (Getopt.getopt_long optstring options
          ["lsopentmf"; "-vd"; "x"; "--verb"; "-d"; "-v"]) 0 0 0
     = Ret (2%Z, 1%Z) 0 [].
Proof.
  split.
  - repeat (constructor; [first [left; reflexivity|right; reflexivity]|]).
    constructor.
  - refine (flags_accumulate (L := nat) (handle := string) "0.1"
              ["lsopentmf"; "-vd"; "x"; "--verb"; "-d"; "-v"] 0 _).
    repeat (constructor; [first [left; reflexivity|right; reflexivity]|]).
    constructor.
Defined.

(** ** Verbosity *)

(** A value the scanner returns without a diagnostic, or ['?']. *)
Definition plain (st : Getopt.step) : Prop :=
  Getopt.said st = None \/ Getopt.code st = Getopt.question.

Section Verbosity.

Context {L context handle : Type}.
Variable lib : opentmf L context handle.
Variable PACKAGE_VERSION : string.
Implicit Types (s : L) (verbose show_devices : Z).

Abbreviation scan2 := (Getopt.scan optstring options).
Abbreviation getopt := (Getopt.getopt_long optstring options).
Abbreviation parse2 :=
  (parse_options (L := L) (handle := handle) PACKAGE_VERSION).

Lemma short_options_plain (letters : string) :
  Forall plain (Getopt.short_options optstring letters).
Proof.
  induction letters as [|c letters IH]; [constructor|].
  cbn [Getopt.short_options]. constructor; [|exact IH].
  unfold Getopt.short_option.
  destruct (strchr optstring c); [|right; reflexivity].
  destruct (Ascii.eqb c ":" || Ascii.eqb c ";");
    [right; reflexivity|left; reflexivity].
Qed.

Lemma found_plain (w : string) (o : Getopt.option_) : plain (Getopt.found w o).
Proof.
  unfold Getopt.found.
  destruct (strchr w "="); destruct (Getopt.arg o);
    first [right; reflexivity|left; reflexivity].
Qed.

Lemma long_option_plain (w : string) : plain (Getopt.long_option options w).
Proof.
  unfold Getopt.long_option.
  destruct (filter _ options) as [|o l]; [|apply found_plain].
  destruct (filter _ options) as [|o l]; [right; reflexivity|].
  destruct (forallb _ l); [apply found_plain|right; reflexivity].
Qed.

(** Only ['?'] comes with a diagnostic. *)
Lemma scan_plain (ws : list string) : Forall plain (scan2 ws).
Proof.
  induction ws as [|w ws IH]; [constructor|].
  cbn [Getopt.scan]. destruct (String.eqb w "--"); [constructor|].
  destruct w as [|a [|b w]]; [exact IH| |].
  - destruct a as [[] [] [] [] [] [] [] []]; exact IH.
  - destruct a as [[] [] [] [] [] [] [] []]; try exact IH.
    destruct b as [[] [] [] [] [] [] [] []];
      first [ constructor; [apply long_option_plain|exact IH]
            | apply Forall_app; split; [apply short_options_plain|exact IH] ].
Qed.

(** The option loop returns only from a scan of flags [d] and [v]. *)
Lemma parse_returns_flags (steps : list Getopt.step) :
  Forall plain steps ->
  forall verbose show_devices s x s' t,
  parse2 steps verbose show_devices s = Ret x s' t ->
  Forall (fun st => st = Getopt.good "d" \/ st = Getopt.good "v") steps.
Proof.
  induction 1 as [|[r said] steps Hp _ IH];
    intros verbose show_devices s x s' t H; [constructor|].
  cbn [parse_options] in H.
  apply bind_returns in H as ([] & s1 & t1 & t1' & H1 & H & ->).
  assert (s1 = s) as ->
    by (destruct said; injection H1 as <- _; reflexivity).
  destruct r as [[] [] [] [] [] [] [] []];
    try (exfalso; revert H; unfold print_help, print_version, bind, printf,
           emit, exit; discriminate).
  - constructor; [|exact (IH _ _ _ _ _ _ H)].
    destruct Hp as [Hs|Hc]; [|discriminate Hc].
    cbn in Hs. subst said. right. reflexivity.
  - constructor; [|exact (IH _ _ _ _ _ _ H)].
    destruct Hp as [Hs|Hc]; [|discriminate Hc].
    cbn in Hs. subst said. left. reflexivity.
Qed.

(** What the option loop has returned. *)
Lemma parse_returned (argv : list string) verbose show_devices s s1 t1 :
  parse2 (getopt argv) 0 0 s = Ret (verbose, show_devices) s1 t1 ->
  parse2 (getopt argv) 0 0 s
  = Ret (Z.min (Z.of_nat (flag_count "v" (getopt argv))) 2,
         if (0 <? flag_count "d" (getopt argv))%nat then 1%Z else 0%Z) s [].
Proof.
  intros H.
  pose proof (parse_returns_flags _ (scan_plain (tl argv)) _ _ _ _ _ _ H) as F.
  rewrite (parse_flags_only PACKAGE_VERSION _ F)
    by (unfold VERBOSE_MAX; lia).
  reflexivity.
Qed.

(** C8. For every command line that the option loop reads to its end,
    the verbosity it leaves is [min(k, 2)], where [k] counts the flags
    [-v] of the line in any form ([-v], bundled as in [-vv] or [-dv],
    [--verbose] and its abbreviations), whatever flags [-d] and operands
    stand between them.  So the level does not decrease from a line to
    one with more flags, and two lines with at least two flags each, and
    both with or both without [-d], give the same run.  In particular
    [k] words [-v] give level [min(k, 2)]. *)
Theorem verbosity_is_min (argv argv' : list string)
    verbose show_devices verbose' show_devices' s s1 t1 s1' t1' :
  parse2 (getopt argv) 0 0 s = Ret (verbose, show_devices) s1 t1 ->
  parse2 (getopt argv') 0 0 s = Ret (verbose', show_devices') s1' t1' ->
  verbose = Z.min (Z.of_nat (flag_count "v" (getopt argv))) 2
  /\ (flag_count "v" (getopt argv) <= flag_count "v" (getopt argv') ->
      (verbose <= verbose')%Z)
  /\ (2 <= flag_count "v" (getopt argv) ->
      2 <= flag_count "v" (getopt argv') ->
      show_devices = show_devices' ->
      main lib PACKAGE_VERSION argv s = main lib PACKAGE_VERSION argv' s)
  /\ (forall (prog : string) (k : nat),
        parse2 (getopt (prog :: repeat "-v" k)) 0 0 s
        = Ret (Z.min (Z.of_nat k) 2, 0%Z) s []).
Proof.
  intros H H'.
  pose proof (parse_returned _ _ _ _ _ _ H) as E.
  pose proof (parse_returned _ _ _ _ _ _ H') as E'.
  rewrite E in H. injection H as Hv Hd _ _.
  rewrite E' in H'. injection H' as Hv' Hd' _ _.
  split; [symmetry; exact Hv|]. split; [intros Hk; lia|]. split.
  - intros Hk Hk' Hsame. unfold main.
    rewrite (bind_run _ _ _ _ _ _ E), (bind_run _ _ _ _ _ _ E').
    rewrite Hd, Hd', Hsame.
    replace (Z.min (Z.of_nat (flag_count "v" (getopt argv))) 2)
      with (Z.min (Z.of_nat (flag_count "v" (getopt argv'))) 2) by lia.
    reflexivity.
  - intros prog k. unfold Getopt.getopt_long. cbn [tl].
    rewrite scan_repeat_v, parse_repeat_v by (unfold VERBOSE_MAX; lia).
    reflexivity.
Qed.

End Verbosity.

Lemma five_flags_as_two :
  parse_options (L := nat) (handle := string) "0.1"
    (Getopt.getopt_long optstring options
       ["lsopentmf"; "-vv"; "-d"; "--verbose"; "x"; "-v"; "-v"]) 0 0 0
  = Ret (2%Z, 1%Z) 0 []
  /\ parse_options (L := nat) (handle := string) "0.1"
       (Getopt.getopt_long optstring options
          ["lsopentmf"; "-d"; "-v"; "--verb"]) 0 0 0
     = Ret (2%Z, 1%Z) 0 []
  /\ flag_count "v"
       (Getopt.getopt_long optstring options
          ["lsopentmf"; "-vv"; "-d"; "--verbose"; "x"; "-v"; "-v"]) = 5
  /\ Sim.run bench ["lsopentmf"; "-vv"; "-d"; "--verbose"; "x"; "-v"; "-v"]
     = Sim.run bench ["lsopentmf"; "-d"; "-v"; "--verb"].
Proof.
  split; [reflexivity|]. split; [reflexivity|]. split; [reflexivity|].
  apply (proj1 (proj2 (proj2
           (verbosity_is_min (Sim.library bench) "0.1"
              ["lsopentmf"; "-vv"; "-d"; "--verbose"; "x"; "-v"; "-v"]
              ["lsopentmf"; "-d"; "-v"; "--verb"]
              2 1 2 1 0 0 [] 0 [] eq_refl eq_refl)))).
  - vm_compute. lia.
  - vm_compute. lia.
  - reflexivity.
Defined.

(** ** Events of a run *)

Section Events.

Context {L context handle : Type}.
Variable lib : opentmf L context handle.
Variable PACKAGE_VERSION : string.
Variable P : event handle -> Prop.
Implicit Types (s : L) (t : list (event handle)) (ctx : context).

Abbreviation always' := (@always L handle _ P).

Lemma always_ret {A} (a : A) : always' (ret a).
Proof. intros s. constructor. Qed.

Lemma always_exit {A} (c : Z) : always' (exit (A := A) c).
Proof. intros s. constructor. Qed.

Lemma always_undefined {A} : always' (undefined (A := A)).
Proof. intros s. constructor. Qed.

Lemma always_emit (e : event handle) : P e -> always' (emit e).
Proof. intros H s. repeat constructor. exact H. Qed.

Lemma always_bind {A B} (m : M A) (k : A -> M B) :
  always' m -> (forall a, always' (k a)) -> always' (bind m k).
Proof.
  intros Hm Hk s. unfold bind. specialize (Hm s).
  destruct (m s) as [a s' t1| |]; try exact Hm.
  rewrite trace_of_prepend. apply Forall_app. split; [exact Hm|apply Hk].
Qed.

Lemma always_call {A} (e : A -> event handle) (f : L -> A * L) :
  (forall a, P (e a)) ->
  always' (fun s => let '(a, s') := f s in Ret a s' [e a]).
Proof. intros H s. destruct (f s) as [a s']. repeat constructor. apply H. Qed.

Hypothesis P_loop : holds_in_loop P.

Lemma always_printf (x : string) : always' (printf x).
Proof. apply always_emit, P_loop. Qed.

Lemma always_printf_each (l : list string) : always' (printf_each l).
Proof.
  induction l as [|x l IH]; [apply always_ret|].
  cbn [printf_each]. apply always_bind; [apply always_printf|intros _; exact IH].
Qed.

Lemma always_print_multi_line (label text : string) :
  always' (print_multi_line label text).
Proof.
  unfold print_multi_line.
  destruct (print_multi_line_out label text) as [out []];
    (apply always_bind; [apply always_printf_each|intros _]);
    [apply always_ret|apply always_undefined].
Qed.

Lemma always_error (x : string) :
  prefix "Error " x = true -> always' (eprintf x).
Proof. intros H. apply always_emit. apply P_loop, H. Qed.

Lemma always_open ctx (url : string) : always' (open lib ctx url).
Proof.
  intros s. unfold open. destruct (opentmf_open lib ctx url s) as [[r h] s'].
  repeat constructor. apply P_loop.
Qed.

Lemma always_close (h : handle) : always' (close lib h).
Proof. intros s. repeat constructor. apply P_loop. Qed.

Ltac always :=
  repeat first
    [ apply always_bind; [|intros ?]
    | match goal with |- always _ (if ?b then _ else _) => destruct b end
    | match goal with |- always _ (match ?x with (_, _) => _ end) =>
        destruct x end
    | apply always_ret
    | apply always_printf
    | apply always_print_multi_line
    | apply always_error; reflexivity
    | apply always_open
    | apply always_close ].

Lemma always_show_driver verbose (info : opentmf_driver_info) :
  always' (show_driver verbose info).
Proof.
  destruct verbose as [|[[]|[]|]|]; cbn [show_driver]; always.
Qed.

Lemma always_show_device verbose (device : string)
    (device_info : opentmf_device_info) :
  always' (show_device verbose device device_info).
Proof.
  destruct verbose as [|[[]|[]|]|]; cbn [show_device]; always.
Qed.

Lemma always_terminate_at url_size (i : nat) (url : string) :
  always' (terminate_at url_size i url).
Proof. unfold terminate_at. destruct (_ <? _)%Z; intros s; constructor. Qed.

Lemma always_strcat url_size (url src : string) :
  always' (strcat url_size url src).
Proof. unfold strcat. destruct (_ <? _)%Z; intros s; constructor. Qed.

Lemma always_device_round verbose ctx url_size (len : nat)
    (device url : string) :
  always' (device_round lib verbose ctx url_size len device url).
Proof.
  unfold device_round.
  apply always_bind; [apply always_terminate_at|intros u].
  apply always_bind; [apply always_strcat|intros u'].
  apply always_bind; [apply always_open|intros [r dev]].
  apply always_bind; [|intros _; apply always_ret].
  destruct (r =? OPENTMF_SUCCESS lib)%Z; [|apply always_error; reflexivity].
  apply always_bind; [intros s; constructor|intros info].
  apply always_bind; [apply always_show_device|intros _; apply always_close].
Qed.

Lemma always_devices_loop verbose ctx url_size (len : nat)
    (devices : list string) :
  forall url, always' (devices_loop lib verbose ctx url_size len devices url).
Proof.
  induction devices as [|d devices IH]; intros url; [apply always_ret|].
  cbn [devices_loop].
  apply always_bind; [apply always_device_round|intros u; apply IH].
Qed.

Lemma always_list_devices verbose show_devices ctx (drv : handle)
    url_size (url : string) :
  always' (list_devices lib verbose show_devices ctx drv url_size url).
Proof.
  unfold list_devices. destruct (show_devices =? 0)%Z; [apply always_ret|].
  apply always_bind.
  { intros s. unfold drv_get_device_list.
    destruct (opentmf_drv_get_device_list lib drv s) as [[r l] s'].
    repeat constructor. apply P_loop. }
  intros [r l]. destruct (r =? OPENTMF_SUCCESS lib)%Z.
  - apply always_bind; [apply always_devices_loop|intros u].
    apply always_bind.
    { intros s. unfold drv_free_device_list.
      destruct (opentmf_drv_free_device_list lib drv l s) as [r' s'].
      repeat constructor. apply P_loop. }
    intros rf. always.
  - always.
Qed.

Lemma always_driver_round verbose show_devices ctx (name : string)
    url_size (url : string) :
  always' (driver_round lib verbose show_devices ctx name url_size url).
Proof.
  unfold driver_round.
  apply always_bind; [apply always_terminate_at|intros u].
  apply always_bind; [apply always_strcat|intros u'].
  apply always_bind; [apply always_strcat|intros u''].
  apply always_bind; [apply always_open|intros [r drv]].
  destruct (r =? OPENTMF_SUCCESS lib)%Z; [|always].
  apply always_bind; [intros s; constructor|intros info].
  apply always_bind; [apply always_show_driver|intros _].
  apply always_bind; [apply always_list_devices|intros u3]. always.
Qed.

Lemma always_drivers_loop verbose show_devices ctx (names : list string) :
  forall url_size url,
  always' (drivers_loop lib verbose show_devices ctx names url_size url).
Proof.
  induction names as [|n names IH]; intros url_size url; [apply always_ret|].
  cbn [drivers_loop].
  apply always_bind; [apply always_driver_round|intros u; apply IH].
Qed.

Hypothesis P_getopt : forall d, P (Getopt_says d).

Lemma always_parse_options (steps : list Getopt.step) :
  forall verbose show_devices,
  always' (parse_options PACKAGE_VERSION steps verbose show_devices).
Proof.
  induction steps as [|[r said] steps IH]; intros verbose show_devices.
  - apply always_ret.
  - cbn [parse_options]. apply always_bind.
    + destruct said; [apply always_emit, P_getopt|apply always_ret].
    + intros _.
      destruct r as [[] [] [] [] [] [] [] []];
        first [ apply IH
              | unfold print_help, print_version;
                apply always_bind; [apply always_printf|intros _];
                apply always_exit ].
Qed.

Hypothesis P_init : forall r, P (Call_init r).
Hypothesis P_exit : forall r, P (Call_exit r).
Hypothesis P_list : forall r l, P (Call_get_driver_list r l).
Hypothesis P_free : forall r, P (Call_free_driver_list r).

Lemma always_main (argv : list string) :
  always' (main lib PACKAGE_VERSION argv).
Proof.
  unfold main.
  apply always_bind; [apply always_parse_options|intros [verbose show_devices]].
  apply always_bind.
  { intros s. unfold init. destruct (opentmf_init lib s) as [[r ctx] s'].
    repeat constructor. apply P_init. }
  intros [r ctx]. destruct (negb (r =? OPENTMF_SUCCESS lib)%Z); [always|].
  apply always_bind.
  { unfold list_drivers. apply always_bind.
    { intros s. unfold get_driver_list.
      destruct (opentmf_get_driver_list lib ctx s) as [[r' l] s'].
      repeat constructor. apply P_list. }
    intros [r' l]. destruct (r' =? OPENTMF_SUCCESS lib)%Z; [|always].
    apply always_bind; [apply always_drivers_loop|intros x].
    apply always_bind.
    { intros s. unfold free_driver_list.
      destruct (opentmf_free_driver_list lib ctx l s) as [rf s'].
      repeat constructor. apply P_free. }
    intros rf. always. }
  intros status. apply always_bind.
  { intros s. unfold finalize. destruct (opentmf_exit lib ctx s) as [re s'].
    repeat constructor. apply P_exit. }
  intros re. always.
Qed.

End Events.

(** ** The main sequence, further *)

Section More_main.

Context {L context handle : Type}.
Variable lib : opentmf L context handle.
Variable PACKAGE_VERSION : string.
Implicit Types (s : L) (t : list (event handle)) (ctx : context).

Abbreviation OK' := (OPENTMF_SUCCESS lib).

Lemma errors_hold_in_loop : holds_in_loop (handle := handle) error_on_stderr.
Proof. repeat split; intros; try exact I. assumption. Qed.

(** X5. Whatever the library answers and however the run ends, every
    text the program writes on standard error starts with [Error]: the
    listings, the usage text and the version go to standard output
    only. *)
Theorem stderr_holds_errors_only (argv : list string) s :
  Forall error_on_stderr (trace_of (main lib PACKAGE_VERSION argv s)).
Proof.
  apply (always_main lib PACKAGE_VERSION error_on_stderr errors_hold_in_loop);
    intros; exact I.
Qed.

(** X6. When the initialization of the library fails, [main] prints
    [Error initializing library: <status-text> (<code>)] on standard
    error and returns the failure status; it makes no other call. *)
Theorem init_failure_is_fatal argv verbose show_devices s0 s0' t0 r ctx s1 :
  parse_options PACKAGE_VERSION
    (Getopt.getopt_long optstring options argv) 0 0 s0
  = Ret (verbose, show_devices) s0' t0 ->
  opentmf_init lib s0' = (r, ctx, s1) ->
  r <> OK' ->
  main lib PACKAGE_VERSION argv s0
  = Ret EXIT_FAILURE s1
      (t0 ++ [ Call_init r;
               Print Stderr ("Error initializing library: "
                               ++ opentmf_get_status_str lib r
                               ++ " (" ++ fmt_d r ++ ")" ++ NL) ])%list.
Proof.
  intros Hopts Hinit Hr. unfold main.
  rewrite (bind_run _ _ _ _ _ _ Hopts).
  unfold bind at 1. unfold init. rewrite Hinit.
  apply Z.eqb_neq in Hr. rewrite Hr. reflexivity.
Qed.

(** X7. When the driver list cannot be retrieved, [main] prints
    [Error getting driver list: <status-text> (<code>)], opens nothing,
    frees nothing, still finalizes the library, and returns the failure
    status whether the finalization succeeds or not. *)
Theorem driver_list_failure argv verbose show_devices
    s0 s0' t0 ctx s1 r (l : list string) s2 re s3 :
  parse_options PACKAGE_VERSION
    (Getopt.getopt_long optstring options argv) 0 0 s0
  = Ret (verbose, show_devices) s0' t0 ->
  opentmf_init lib s0' = (OK', ctx, s1) ->
  opentmf_get_driver_list lib ctx s1 = (r, l, s2) ->
  r <> OK' ->
  opentmf_exit lib ctx s2 = (re, s3) ->
  main lib PACKAGE_VERSION argv s0
  = Ret EXIT_FAILURE s3
      (t0 ++ [ Call_init OK';
               Call_get_driver_list r l;
               Print Stderr ("Error getting driver list: "
                               ++ status_text lib r);
               Call_exit re ]
          ++ (if (re =? OK')%Z then []
              else [Print Stderr ("Error finalizing library: "
                                    ++ status_text lib re)]))%list.
Proof.
  intros Hopts Hinit Hlist Hr Hexit.
  rewrite (main_initialized _ _ _ _ _ _ _ _ _ _ Hopts Hinit).
  unfold after_init, list_drivers.
  unfold bind at 1. unfold bind at 1. unfold get_driver_list.
  rewrite Hlist. apply Z.eqb_neq in Hr. rewrite Hr.
  cbv [bind eprintf emit ret prepend finalize]. rewrite Hexit.
  destruct (re =? OK')%Z; cbn [negb app]; rewrite <- ?app_assoc; reflexivity.
Qed.

Lemma nonfatal_holds_in_loop :
  holds_in_loop (handle := handle) (fun e => fatal OK' e = false).
Proof. repeat split. Qed.

Lemma existsb_Forall_false {A} (f : A -> bool) (l : list A) :
  Forall (fun a => f a = false) l -> existsb f l = false.
Proof. induction 1 as [|a l Ha _ IH]; simpl; [|rewrite Ha, IH]; reflexivity. Qed.

(** X8. The status [main] returns is the failure status exactly when the
    initialization, the retrieval of the driver list or the finalization
    has returned an error, and 0 otherwise: a driver or a device that
    does not open, a device list that cannot be retrieved, and a list
    that cannot be freed are reported and do not change it. *)
Theorem exit_status argv s0 status s' t :
  main lib PACKAGE_VERSION argv s0 = Ret status s' t ->
  status = if existsb (fatal OK') t then EXIT_FAILURE else EXIT_SUCCESS.
Proof.
  intros H. unfold main in H.
  apply bind_returns in H as ([verbose show_devices] & s1 & t1 & t1' & H1 & H & ->).
  assert (E1 : existsb (fatal OK') t1 = false).
  { apply existsb_Forall_false.
    pose proof (always_parse_options PACKAGE_VERSION
                  (fun e => fatal OK' e = false) nonfatal_holds_in_loop
                  (fun _ => eq_refl)
                  (Getopt.getopt_long optstring options argv) 0%Z 0%Z s0) as A.
    rewrite H1 in A. exact A. }
  rewrite existsb_app, E1. cbn [orb].
  apply bind_returns in H as ([r ctx] & s2 & t2 & t2' & H2 & H & ->).
  assert (t2 = [Call_init r]) as ->.
  { unfold init in H2. destruct (opentmf_init lib s1) as [[r' c'] s''].
    injection H2 as <- _ _ <-. reflexivity. }
  cbn [app existsb fatal].
  destruct (r =? OK')%Z eqn:Er; cbn [negb orb] in *;
    [|injection H as <- _ _; reflexivity].
  apply bind_returns in H as (st & s3 & t3 & t3' & H3 & H & ->).
  apply bind_returns in H as (re & s4 & t4 & t4' & H4 & H & ->).
  assert (t4 = [Call_exit re]) as ->.
  { unfold finalize in H4. destruct (opentmf_exit lib ctx s3) as [r' s''].
    injection H4 as <- _ <-. reflexivity. }
  assert (E4 : existsb (fatal OK') t4' = false
               /\ status = if (re =? OK')%Z then st else EXIT_FAILURE).
  { destruct (re =? OK')%Z; cbn [negb] in H; injection H as <- _ <-; auto. }
  destruct E4 as [E4 ->].
  rewrite !existsb_app, E4. cbn [existsb fatal]. rewrite !orb_false_r.
  unfold list_drivers in H3.
  apply bind_returns in H3 as ([r1 l] & s5 & t5 & t5' & H5 & H3 & ->).
  assert (t5 = [Call_get_driver_list r1 l]) as ->.
  { unfold get_driver_list in H5.
    destruct (opentmf_get_driver_list lib ctx s2) as [[r' l'] s''].
    injection H5 as <- <- _ <-. reflexivity. }
  cbn [app existsb fatal].
  destruct (r1 =? OK')%Z eqn:E1'; cbn [negb orb].
  - apply bind_returns in H3 as (x & s6 & t6 & t6' & H6 & H3 & ->).
    assert (E6 : existsb (fatal OK') t6 = false).
    { apply existsb_Forall_false.
      pose proof (always_drivers_loop lib (fun e => fatal OK' e = false)
                    nonfatal_holds_in_loop verbose show_devices ctx l
                    1024%Z "" s5) as A.
      rewrite H6 in A. exact A. }
    apply bind_returns in H3 as (rf & s7 & t7 & t7' & H7 & H3 & ->).
    assert (t7 = [Call_free_driver_list rf]) as ->.
    { unfold free_driver_list in H7.
      destruct (opentmf_free_driver_list lib ctx l s6) as [r' s''].
      injection H7 as <- _ <-. reflexivity. }
    apply bind_returns in H3 as ([] & s8 & t8 & t8' & H8 & H3 & ->).
    injection H3 as <- _ <-.
    assert (E8 : existsb (fatal OK') t8 = false).
    { destruct (negb (rf =? OK')%Z); injection H8 as _ <-; reflexivity. }
    rewrite !existsb_app, E6, E8. cbn [existsb fatal orb].
    destruct (re =? OK')%Z; reflexivity.
  - apply bind_returns in H3 as ([] & s6 & t6 & t6' & H6 & H3 & ->).
    injection H3 as <- _ _. destruct (re =? OK')%Z; reflexivity.
Qed.

End More_main.

Lemma init_fails_on_bench :
  Sim.run (Sim.Config 5 0 [Sim.plain "a" 0 []] 0) ["lsopentmf"; "-v"]
  = Ret EXIT_FAILURE 0
      [ Call_init 5;
        Print Stderr ("Error initializing library: Failure (5)" ++ NL) ].
Proof.
  refine (init_failure_is_fatal
            (Sim.library (Sim.Config 5 0 [Sim.plain "a" 0 []] 0)) "0.1"
            ["lsopentmf"; "-v"] 1 0 0 0 [] 5 tt 0 eq_refl eq_refl _).
  discriminate.
Defined.

Lemma list_fails_on_bench :
  Sim.run (Sim.Config 0 4 [Sim.plain "a" 0 []] 0) ["lsopentmf"]
  = Ret EXIT_FAILURE 0
      [ Call_init 0;
        Call_get_driver_list 4 ["a"];
        Print Stderr ("Error getting driver list: Failure (4)" ++ NL);
        Call_exit 0 ].
Proof.
  refine (driver_list_failure
            (Sim.library (Sim.Config 0 4 [Sim.plain "a" 0 []] 0)) "0.1"
            ["lsopentmf"] 0 0 0 0 [] tt 0 4 ["a"] 0 0 0
            eq_refl eq_refl eq_refl _ eq_refl).
  discriminate.
Defined.

Lemma bench_status_with_failures :
  Sim.run bench ["lsopentmf"; "-d"]
  = Ret 0%Z 0 (trace_of (Sim.run bench ["lsopentmf"; "-d"]))
  /\ 0%Z = (if existsb (fatal 0) (trace_of (Sim.run bench ["lsopentmf"; "-d"]))
            then EXIT_FAILURE else EXIT_SUCCESS).
Proof.
  split; [reflexivity|].
  exact (exit_status (Sim.library bench) "0.1" ["lsopentmf"; "-d"] 0 0%Z 0
           (trace_of (Sim.run bench ["lsopentmf"; "-d"])) eq_refl).
Defined.

(** ** Devices and handles, further *)

Section More_handles.

Context {L context handle : Type}.
Variable lib : opentmf L context handle.
Variable PACKAGE_VERSION : string.
Implicit Types (s : L) (t td : list (event handle)) (ctx : context).

Abbreviation OK'' := (OPENTMF_SUCCESS lib).

Lemma devices_loop_app verbose ctx url_size (len : nat)
    (before after : list string) :
  forall url s,
  devices_loop lib verbose ctx url_size len (before ++ after)%list url s
  = bind (devices_loop lib verbose ctx url_size len before url)
      (fun url' => devices_loop lib verbose ctx url_size len after url') s.
Proof.
  induction before as [|d before IH]; intros url s.
  - cbn [app devices_loop]. unfold bind, ret. symmetry. apply prepend_nil.
  - cbn [app devices_loop]. rewrite bind_assoc.
    apply bind_ext. intros url' s'. apply IH.
Qed.

(** The buffer keeps the URL of the driver in front. *)
Lemma devices_loop_base verbose ctx url_size (base : string)
    (devices : list string) :
  forall url s u s' t,
  precision (String.length base) url = base ->
  devices_loop lib verbose ctx url_size (String.length base) devices url s
  = Ret u s' t ->
  precision (String.length base) u = base.
Proof.
  induction devices as [|d devices IH]; intros url s u s' t Hbase H.
  - injection H as <- _ _. exact Hbase.
  - cbn [devices_loop] in H.
    apply bind_returns in H as (u1 & s1 & t1 & t1' & H1 & H & ->).
    apply device_round_returns in H1 as [-> _]. rewrite Hbase in H.
    apply IH in H; [exact H|apply precision_prefix].
Qed.

(** A round for a device whose URL fits and which does not open. *)
Lemma device_round_failed verbose ctx url_size (base device url : string)
    s r h s' :
  precision (String.length base) url = base ->
  (Z.of_nat (String.length base + String.length device) < url_size)%Z ->
  opentmf_open lib ctx (base ++ device) s = (r, h, s') ->
  r <> OK'' ->
  device_round lib verbose ctx url_size (String.length base) device url s
  = Ret (base ++ device) s'
      [ Call_open (base ++ device) r h;
        Print Stderr ("Error opening device `" ++ device ++ "`: "
                        ++ status_text lib r) ].
Proof.
  intros Hbase Hfit Hopen Hr. unfold device_round.
  unfold bind at 1. unfold terminate_at.
  destruct (Z.ltb_spec (Z.of_nat (String.length base)) url_size); [|lia].
  rewrite Hbase. cbn [ret prepend]. unfold bind at 1. unfold strcat.
  destruct (Z.ltb_spec
              (Z.of_nat (String.length base + String.length device)) url_size);
    [|lia].
  cbn [ret prepend app]. unfold bind at 1. unfold open.
  rewrite Hopen. cbn [prepend app].
  apply Z.eqb_neq in Hr. rewrite Hr. reflexivity.
Qed.

(** X9. When a device of the list does not open (and its URL fits the
    buffer), the loop over the devices prints one line on standard error
    that names the device path, closes nothing for it, and goes on with
    the devices behind it: the rounds before and after it run as they
    would without it. *)
Theorem failed_device_is_skipped verbose ctx url_size (base : string)
    (before after : list string) (device : string)
    s url1 s1 t1 r h s2 url3 s3 t3 :
  devices_loop lib verbose ctx url_size (String.length base) before base s
  = Ret url1 s1 t1 ->
  (Z.of_nat (String.length base + String.length device) < url_size)%Z ->
  opentmf_open lib ctx (base ++ device) s1 = (r, h, s2) ->
  r <> OK'' ->
  devices_loop lib verbose ctx url_size (String.length base) after
    (base ++ device) s2
  = Ret url3 s3 t3 ->
  devices_loop lib verbose ctx url_size (String.length base)
    (before ++ device :: after)%list base s
  = Ret url3 s3
      (t1 ++ [ Call_open (base ++ device) r h;
               Print Stderr ("Error opening device `" ++ device ++ "`: "
                               ++ opentmf_get_status_str lib r
                               ++ " (" ++ fmt_d r ++ ")" ++ NL) ]
          ++ t3)%list.
Proof.
  intros Hbefore Hfit Hopen Hr Hafter.
  assert (Hbase : precision (String.length base) url1 = base).
  { apply (devices_loop_base _ _ _ _ _ _ _ _ _ _) with (2 := Hbefore).
    rewrite <- (append_nil_r base) at 2. apply precision_prefix. }
  rewrite devices_loop_app, (bind_run _ _ _ _ _ _ Hbefore).
  cbn [devices_loop]. unfold bind at 1.
  rewrite (device_round_failed _ _ _ _ _ _ _ _ _ _ Hbase Hfit Hopen Hr).
  rewrite Hafter. reflexivity.
Qed.

(** X10. When the device list of an opened driver cannot be retrieved,
    the round of that driver prints
    [Error getting device list: <status-text> (<code>)], opens no
    device, frees no list, and still closes the driver. *)
Theorem device_list_failure verbose show_devices ctx (name : string)
    url_size (url : string) s h s1 s1' tp r (l : list string) s2 :
  (10 + Z.of_nat (String.length name) < url_size)%Z ->
  opentmf_open lib ctx ("opentmf://" ++ name) s = (OK'', h, s1) ->
  show_driver verbose (opentmf_drv_get_info lib h s1) s1 = Ret tt s1' tp ->
  show_devices <> 0%Z ->
  opentmf_drv_get_device_list lib h s1' = (r, l, s2) ->
  r <> OK'' ->
  driver_round lib verbose show_devices ctx name url_size url s
  = Ret ("opentmf://" ++ name) (opentmf_close lib h s2)
      ([Call_open ("opentmf://" ++ name) OK'' h] ++ tp
         ++ [ Call_get_device_list h r l;
              Print Stderr ("Error getting device list: "
                              ++ opentmf_get_status_str lib r
                              ++ " (" ++ fmt_d r ++ ")" ++ NL);
              Call_close h ])%list.
Proof.
  intros Hfit Hopen Hshow Hd Hlist Hr. unfold driver_round.
  unfold bind at 1. unfold terminate_at.
  destruct (Z.ltb_spec (Z.of_nat 0) url_size); [|lia].
  replace (precision 0 url) with "" by (destruct url; reflexivity).
  cbn [ret prepend]. unfold bind at 1. unfold strcat at 1.
  change (String.length "" + String.length "opentmf://") with 10.
  destruct (Z.ltb_spec (Z.of_nat 10) url_size); [|lia].
  cbn [ret prepend app append]. unfold bind at 1. unfold strcat at 1.
  change (String.length "opentmf://") with 10.
  destruct (Z.ltb_spec (Z.of_nat (10 + String.length name)) url_size);
    [|lia].
  cbn [ret prepend app]. unfold bind at 1. unfold open.
  rewrite Hopen. cbn [prepend app]. rewrite Z.eqb_refl.
  unfold bind at 1. unfold drv_get_info. cbn [prepend app].
  unfold bind at 1. rewrite Hshow.
  unfold list_devices. apply Z.eqb_neq in Hd. rewrite Hd.
  unfold bind at 1. unfold bind at 1. unfold drv_get_device_list.
  rewrite Hlist. apply Z.eqb_neq in Hr. rewrite Hr.
  cbv [bind eprintf emit ret prepend close].
  rewrite <- ?app_assoc. cbn [app]. rewrite ?app_nil_r. reflexivity.
Qed.

End More_handles.

Lemma second_device_fails :
  devices_loop (Sim.library
                  (Sim.Config 0 0
                     [Sim.plain "a" 0
                        [Sim.dev "/0"; Sim.Device "/1" (-5) (Device_info "" "");
                         Sim.dev "/2"]] 0))
    0 tt 1024 (String.length "opentmf://a") ["/0"; "/1"; "/2"] "opentmf://a" 1
  = Ret "opentmf://a/2" 1
      [ Call_open "opentmf://a/0" 0 "opentmf://a/0";
        Print Stdout ("  /0" ++ NL);
        Call_close "opentmf://a/0";
        Call_open "opentmf://a/1" (-5) "";
        Print Stderr ("Error opening device `/1`: Failure (-5)" ++ NL);
        Call_open "opentmf://a/2" 0 "opentmf://a/2";
        Print Stdout ("  /2" ++ NL);
        Call_close "opentmf://a/2" ].
Proof.
  refine (failed_device_is_skipped
            (Sim.library
               (Sim.Config 0 0
                  [Sim.plain "a" 0
                     [Sim.dev "/0"; Sim.Device "/1" (-5) (Device_info "" "");
                      Sim.dev "/2"]] 0))
            0 tt 1024 "opentmf://a" ["/0"] ["/2"] "/1"
            1 "opentmf://a/0" 1 _ (-5) "" 1 "opentmf://a/2" 1 _
            eq_refl _ eq_refl _ eq_refl).
  - reflexivity.
  - discriminate.
Defined.

Lemma device_list_fails :
  driver_round (Sim.library
                  (Sim.Config 0 0
                     [Sim.Driver "a" 0 scope_rc1 (-3) [Sim.dev "/0"]] 0))
    0 1 tt "a" 1024 "" 0
  = Ret "opentmf://a" 0
      [ Call_open "opentmf://a" 0 "opentmf://a";
        Print Stdout ("scope" ++ NL);
        Call_get_device_list "opentmf://a" (-3) ["/0"];
        Print Stderr ("Error getting device list: Failure (-3)" ++ NL);
        Call_close "opentmf://a" ].
Proof.
  refine (device_list_failure
            (Sim.library
               (Sim.Config 0 0
                  [Sim.Driver "a" 0 scope_rc1 (-3) [Sim.dev "/0"]] 0))
            0 1 tt "a" 1024 "" 0 "opentmf://a" 1 1 _ (-3) ["/0"] 1
            _ eq_refl eq_refl _ eq_refl _).
  - reflexivity.
  - discriminate.
  - discriminate.
Defined.

(** ** The discipline of handles, further *)

Section Balance.

Context {L context handle : Type}.
Variable lib : opentmf L context handle.
Variable PACKAGE_VERSION : string.
Implicit Types (s : L) (t td : list (event handle)) (ctx : context).

Abbreviation ok := (OPENTMF_SUCCESS lib).

Lemma opens_and_closes_calls t :
  opens_and_closes (calls t) = opens_and_closes t.
Proof.
  induction t as [|e t IH]; [reflexivity|].
  destruct e; cbn [calls filter is_call opens_and_closes is_open_or_close];
    fold (calls t); fold (opens_and_closes t);
    fold (opens_and_closes (calls t)); rewrite ?IH; reflexivity.
Qed.

Lemma opens_and_closes_app t t' :
  opens_and_closes (t ++ t')%list
  = (opens_and_closes t ++ opens_and_closes t')%list.
Proof. apply filter_app. Qed.

(** The calls of a run of [main] that returns: the loop over the drivers
    between calls that open and close nothing. *)
Lemma main_returns_calls argv s0 status s' t :
  main lib PACKAGE_VERSION argv s0 = Ret status s' t ->
  exists verbose show_devices s1 t1 (names : list string) loop pre post,
    parse_options PACKAGE_VERSION
      (Getopt.getopt_long optstring options argv) 0 0 s0
    = Ret (verbose, show_devices) s1 t1
    /\ calls t = (pre ++ loop ++ post)%list
    /\ driver_calls ok show_devices names loop
    /\ opens_and_closes pre = []
    /\ opens_and_closes post = [].
Proof.
  intros H. unfold main in H.
  apply bind_returns in H as ([verbose show_devices] & s1 & t1 & t1' & H1 & H & ->).
  exists verbose, show_devices, s1, t1.
  pose proof (quiet_returns _ _ _ _ _ (quiet_parse_options _ _ _ _) H1) as E1.
  rewrite calls_app, E1. cbn [app].
  apply bind_returns in H as ([r ctx] & s2 & t2 & t2' & H2 & H & ->).
  assert (t2 = [Call_init r]) as ->.
  { unfold init in H2. destruct (opentmf_init lib s1) as [[r' c'] s''].
    injection H2 as <- _ _ <-. reflexivity. }
  destruct (r =? ok)%Z; cbn [negb] in H.
  2:{ injection H as _ _ <-.
      exists [], [], [Call_init r], [].
      split; [exact H1|]. repeat split. constructor. }
  apply bind_returns in H as (st & s3 & t3 & t3' & H3 & H & ->).
  apply bind_returns in H as (re & s4 & t4 & t4' & H4 & H & ->).
  assert (t4 = [Call_exit re]) as ->.
  { unfold finalize in H4. destruct (opentmf_exit lib ctx s3) as [r' s''].
    injection H4 as <- _ <-. reflexivity. }
  assert (E4 : calls t4' = []).
  { destruct (negb (re =? ok)%Z); injection H as _ _ <-; reflexivity. }
  unfold list_drivers in H3.
  apply bind_returns in H3 as ([r1 l] & s5 & t5 & t5' & H5 & H3 & ->).
  assert (t5 = [Call_get_driver_list r1 l]) as ->.
  { unfold get_driver_list in H5.
    destruct (opentmf_get_driver_list lib ctx s2) as [[r' l'] s''].
    injection H5 as <- <- _ <-. reflexivity. }
  destruct (r1 =? ok)%Z.
  - apply bind_returns in H3 as (x & s6 & t6 & t6' & H6 & H3 & ->).
    apply drivers_loop_returns in H6.
    apply bind_returns in H3 as (rf & s7 & t7 & t7' & H7 & H3 & ->).
    assert (t7 = [Call_free_driver_list rf]) as ->.
    { unfold free_driver_list in H7.
      destruct (opentmf_free_driver_list lib ctx l s6) as [r' s''].
      injection H7 as <- _ <-. reflexivity. }
    apply bind_returns in H3 as ([] & s8 & t8 & t8' & H8 & H3 & ->).
    injection H3 as _ _ <-.
    assert (E8 : calls t8 = []).
    { destruct (negb (rf =? ok)%Z); injection H8 as _ <-; reflexivity. }
    exists l, (calls t6), [Call_init r; Call_get_driver_list r1 l],
      [Call_free_driver_list rf; Call_exit re].
    split; [exact H1|]. repeat split; try assumption.
    rewrite !calls_app, E4. cbn [app calls filter is_call].
    rewrite E8, <- app_assoc. reflexivity.
  - apply bind_returns in H3 as ([] & s6 & t6 & t6' & H6 & H3 & ->).
    injection H6 as _ <-. injection H3 as _ _ <-.
    exists [], [], [Call_init r; Call_get_driver_list r1 l; Call_exit re], [].
    split; [exact H1|]. repeat split; [|constructor].
    rewrite !calls_app, E4. reflexivity.
Qed.

Lemma driver_calls_flat (names : list string) t :
  driver_calls ok 0 names t ->
  closed_before_next_open ok (opens_and_closes t).
Proof.
  induction 1 as [|name rest h td t Hd _ IH|name rest r h t Hr _ IH].
  - constructor.
  - assert (td = []) as -> by (inversion Hd; [reflexivity|contradiction..]).
    apply cbno_opened. exact IH.
  - apply cbno_failed; assumption.
Qed.

(** X11. Without [-d], in a run that returns, every driver that opens is
    closed before the next open attempt and nothing is closed after an
    attempt that failed: at most one handle is open at a time. *)
Theorem without_devices_one_handle argv verbose s0 s1 t1 status s' t :
  parse_options PACKAGE_VERSION
    (Getopt.getopt_long optstring options argv) 0 0 s0
  = Ret (verbose, 0%Z) s1 t1 ->
  main lib PACKAGE_VERSION argv s0 = Ret status s' t ->
  closed_before_next_open ok (opens_and_closes t).
Proof.
  intros Hopts H.
  apply main_returns_calls in H
    as (v & d & s1' & t1' & names & loop & pre & post
        & Hp & Hc & Hloop & Hpre & Hpost).
  rewrite Hopts in Hp. injection Hp as <- <- _ _.
  rewrite <- opens_and_closes_calls, Hc, !opens_and_closes_app, Hpre, Hpost.
  cbn [app]. rewrite app_nil_r. apply (driver_calls_flat names), Hloop.
Qed.

(** Events that open and close nothing may be left out, or put back. *)
Lemma nested_without_others (limit : nat) t (open final : list handle) :
  handles_nested ok limit open t final ->
  handles_nested ok limit open (opens_and_closes t) final.
Proof.
  induction 1 as [open|url h t open final Hl _ IH|url r h t open final Hr _ IH
                 |h t open final _ IH|e t open final He _ IH].
  - constructor.
  - apply nested_open; assumption.
  - apply nested_failed; assumption.
  - apply nested_close; assumption.
  - cbn [opens_and_closes filter]. rewrite He. exact IH.
Qed.

Lemma nested_with_others (limit : nat) t : forall open final : list handle,
  handles_nested ok limit open (opens_and_closes t) final ->
  handles_nested ok limit open t final.
Proof.
  induction t as [|e t IH]; intros open final H; [exact H|].
  destruct (is_open_or_close e) eqn:He.
  - cbn [opens_and_closes filter] in H. rewrite He in H.
    fold (opens_and_closes t) in H.
    inversion H; subst.
    + apply nested_open; [assumption|]. apply IH. assumption.
    + apply nested_failed; [assumption|]. apply IH. assumption.
    + apply nested_close. apply IH. assumption.
    + congruence.
  - apply nested_other; [exact He|]. apply IH.
    cbn [opens_and_closes filter] in H. rewrite He in H. exact H.
Qed.

Lemma device_calls_nested (limit : nat) (base : string)
    (devices : list string) td :
  device_calls ok base devices td ->
  forall (open final : list handle) rest,
    List.length open < limit ->
    handles_nested ok limit open rest final ->
    handles_nested ok limit open (td ++ rest)%list final.
Proof.
  induction 1 as [|device ds h t _ IH|device ds r h t Hr _ IH];
    intros open final rest Hl Hrest.
  - exact Hrest.
  - cbn [app]. apply nested_open; [exact Hl|].
    apply nested_close. apply IH; assumption.
  - cbn [app]. apply nested_failed; [exact Hr|]. apply IH; assumption.
Qed.

Lemma devices_part_nested (limit : nat) show_devices (base : string)
    (drv : handle) td :
  devices_part ok show_devices base drv td ->
  forall (open final : list handle) rest,
    List.length open < limit ->
    handles_nested ok limit open rest final ->
    handles_nested ok limit open (td ++ rest)%list final.
Proof.
  intros [_|r l _ _|l t r _ Hd] open final rest Hl Hrest.
  - exact Hrest.
  - cbn [app]. apply nested_other; [reflexivity|exact Hrest].
  - cbn [app]. apply nested_other; [reflexivity|].
    rewrite <- app_assoc.
    apply (device_calls_nested limit _ _ _ Hd); [exact Hl|].
    cbn [app]. apply nested_other; [reflexivity|exact Hrest].
Qed.

Lemma driver_calls_nested show_devices (names : list string) t :
  driver_calls ok show_devices names t ->
  handles_nested ok 2 [] t [].
Proof.
  induction 1 as [|name rest h td t Hd _ IH|name rest r h t Hr _ IH].
  - constructor.
  - apply nested_open; [cbn; lia|].
    apply (devices_part_nested 2 _ _ _ _ Hd); [cbn; lia|].
    apply nested_close. exact IH.
  - apply nested_failed; assumption.
Qed.

(** X12. In every run of [main] that returns, with or without [-d]: each
    close is of the handle that was opened last among those still open,
    no handle is left open at the end, and never more than two handles
    (a driver and one of its devices) are open at the same time. *)
Theorem handles_balanced argv s0 status s' t :
  main lib PACKAGE_VERSION argv s0 = Ret status s' t ->
  handles_nested ok 2 [] t [].
Proof.
  intros H.
  apply main_returns_calls in H
    as (v & d & s1 & t1 & names & loop & pre & post
        & _ & Hc & Hloop & Hpre & Hpost).
  apply nested_with_others.
  rewrite <- opens_and_closes_calls, Hc, !opens_and_closes_app, Hpre, Hpost.
  cbn [app]. rewrite app_nil_r.
  apply nested_without_others.
  apply (driver_calls_nested d names), Hloop.
Qed.

End Balance.

Lemma bench_one_handle :
  closed_before_next_open 0
    (opens_and_closes (trace_of (Sim.run bench ["lsopentmf"; "-v"]))).
Proof.
  exact (without_devices_one_handle (Sim.library bench) "0.1"
           ["lsopentmf"; "-v"] 1 0 0 [] 0%Z 0 _ eq_refl eq_refl).
Defined.

Lemma bench_balanced :
  handles_nested 0 2 [] (trace_of (Sim.run bench ["lsopentmf"; "-d"])) [].
Proof.
  exact (handles_balanced (Sim.library bench) "0.1"
           ["lsopentmf"; "-d"] 0 0%Z 0 _ eq_refl).
Defined.

(** A close of the driver while its device is the handle opened last is
    not such a run. *)
Example close_of_the_wrong_handle :
  ~ handles_nested (handle := string) 0 2 []
      [ Call_open "opentmf://a" 0 "a"; Call_open "opentmf://a/0" 0 "a/0";
        Call_close "a"; Call_close "a" ] [].
Proof.
  intros H.
  inversion H as [|? ? ? ? ? _ H1| | |? ? ? ? E]; subst;
    [|congruence|discriminate E].
  inversion H1 as [|? ? ? ? ? _ H2| | |? ? ? ? E]; subst;
    [|congruence|discriminate E].
  inversion H2 as [| | | |? ? ? ? E]; subst. discriminate E.
Qed.

(** ** Multi-line fields, further *)

Section More_fields.

Context {L handle : Type}.
Implicit Types (s : L) (info : opentmf_driver_info).

(** What [print_multi_line] hands to [printf], put together. *)
Lemma print_multi_line_run (label text : string) s :
  (Z.of_nat (String.length text) <= INT_MAX)%Z ->
  exists out,
    print_multi_line (handle := handle) label text s
    = Ret tt s (map (Print Stdout) out)
    /\ cat out = rendering label text.
Proof.
  intros Hmax. unfold print_multi_line, print_multi_line_out, rendering.
  destruct (strchr text nl) as [i|] eqn:E.
  - destruct (indent_lines_spec _ text (le_n _) Hmax)
      as (out & rest & Hrun & Hrest & Hcat).
    rewrite Hrun. cbn [fst snd].
    erewrite bind_run by apply printf_each_run.
    unfold ret, prepend. rewrite app_nil_r.
    eexists. split; [reflexivity|].
    cbn [cat fold_right].
    fold (cat (out ++ (if String.eqb rest "" then []
                       else [String " " (String " " (rest ++ NL))]))%list).
    rewrite cat_app, <- Hcat, (indented_last rest true Hrest).
    rewrite !append_assoc.
    destruct rest; simpl; rewrite ?append_nil_r; reflexivity.
  - erewrite bind_run by apply printf_each_run.
    unfold ret, prepend. rewrite app_nil_r.
    eexists. split; [reflexivity|].
    simpl. rewrite append_nil_r. reflexivity.
Qed.

Lemma unindent_indented (text : string) : forall b : bool,
  unindent (if b then 2 else 0) (indented b text) = terminated b text.
Proof.
  induction text as [|c text IH]; intros b.
  - destruct b; reflexivity.
  - destruct b; cbn [indented append unindent terminated];
      rewrite <- (IH (Ascii.eqb c nl)); reflexivity.
Qed.

(** X13. The text can be read back from what [print_multi_line] prints
    for a text with line breaks: behind the line of the label, dropping
    the first two characters of every line gives the text itself, with a
    line break at its end if it had none. *)
Theorem multi_line_round_trip (label text : string) s :
  strchr text nl <> None ->
  (Z.of_nat (String.length text) <= INT_MAX)%Z ->
  exists t body,
    print_multi_line (handle := handle) label text s = Ret tt s t
    /\ printed Stdout t = label ++ ":" ++ NL ++ body
    /\ unindent 2 body = terminated true text.
Proof.
  intros Hnl Hmax.
  destruct (print_multi_line_run label text s Hmax) as (out & Hrun & Hcat).
  exists (map (Print Stdout) out), (indented true text).
  split; [exact Hrun|]. split; [|apply (unindent_indented text true)].
  rewrite printed_stdout, Hcat. unfold rendering.
  destruct (strchr text nl); [reflexivity|contradiction].
Qed.

(** X14. At verbosity 2 an opened driver is printed on standard output
    as the block [Driver:], [Version:] (with the extra label behind the
    version), the description and the authors as multi-line fields,
    [License:], [Free:] with [yes] for a free driver and [no] for a
    non-free one, and an empty line.  The two texts are no longer than
    [INT_MAX]. *)
Theorem driver_block info s :
  (Z.of_nat (String.length (description info)) <= INT_MAX)%Z ->
  (Z.of_nat (String.length (authors info)) <= INT_MAX)%Z ->
  exists t,
    show_driver (handle := handle) 2 info s = Ret tt s t
    /\ printed Stdout t
       = "Driver: " ++ name info ++ NL
           ++ "Version: " ++ version_string (version info)
           ++ extra (version info) ++ NL
           ++ rendering "Description" (description info)
           ++ rendering "Authors" (authors info)
           ++ "License: " ++ license info ++ NL
           ++ "Free: " ++ (if non_free info then "no" else "yes") ++ NL
           ++ NL
    /\ printed Stderr t = "".
Proof.
  intros Hd Ha.
  destruct (print_multi_line_run "Description" (description info) s Hd)
    as (outd & Hrd & Hcd).
  destruct (print_multi_line_run "Authors" (authors info) s Ha)
    as (outa & Hra & Hca).
  cbn [show_driver]. rewrite patch_test. unfold version_string.
  exists ((Print Stdout ("Driver: " ++ name info ++ NL)
           :: Print Stdout ("Version: " ++ fmt_u (major (version info)) ++ "."
                              ++ fmt_u (minor (version info)))
           :: (if (patch (version info) =? 0)%N then []
               else [Print Stdout ("." ++ fmt_u (patch (version info)))]))
          ++ Print Stdout (extra (version info) ++ NL)
          :: map (Print Stdout) outd
          ++ map (Print Stdout) outa
          ++ [ Print Stdout ("License: " ++ license info ++ NL);
               Print Stdout ("Free: " ++ (if non_free info then "no" else "yes")
                               ++ NL);
               Print Stdout NL ])%list.
  split; [|split].
  - unfold bind at 1. cbn [printf emit].
    unfold bind at 1. cbn [printf emit].
    destruct (patch (version info) =? 0)%N; cbn [negb];
      unfold bind at 1; cbn [printf emit ret prepend];
      unfold bind at 1; cbn [printf emit ret prepend];
      unfold bind at 1; rewrite Hrd; unfold bind at 1; rewrite Hra;
      cbv [bind printf emit ret prepend]; cbn [app];
      rewrite <- ?app_assoc; cbn [app]; rewrite ?app_nil_r; reflexivity.
  - rewrite printed_app. cbn [printed]. rewrite !printed_app, !printed_stdout.
    rewrite Hcd, Hca.
    destruct (patch (version info) =? 0)%N; unfold NL; cbn [printed append];
      repeat (rewrite append_assoc; cbn [append]);
      rewrite ?append_nil_r; reflexivity.
  - rewrite printed_app. cbn [printed]. rewrite !printed_app, !printed_stderr.
    destruct (patch (version info) =? 0)%N; reflexivity.
Qed.

End More_fields.

Lemma three_lines_round_trip :
  exists t body,
    print_multi_line (handle := string) "Authors"
      ("A. Author" ++ NL ++ "B. Author" ++ NL ++ "C. Author") 0
    = Ret tt 0 t
    /\ printed Stdout t = "Authors" ++ ":" ++ NL ++ body
    /\ unindent 2 body
       = "A. Author" ++ NL ++ "B. Author" ++ NL ++ "C. Author" ++ NL.
Proof.
  refine (multi_line_round_trip (handle := string) "Authors"
            ("A. Author" ++ NL ++ "B. Author" ++ NL ++ "C. Author") 0 _ _).
  - vm_compute. discriminate.
  - vm_compute. discriminate.
Defined.

Lemma scope_block :
  exists t,
    show_driver (handle := string) 2
      (Driver_info "scope" (Version 1 2 3 "-rc1")
         ("An oscilloscope" ++ NL ++ "driver") "A. Author" "GPL-2.0" true) 0
    = Ret tt 0 t
    /\ printed Stdout t
       = "Driver: scope" ++ NL
           ++ "Version: 1.2.3-rc1" ++ NL
           ++ "Description:" ++ NL
           ++ "  An oscilloscope" ++ NL
           ++ "  driver" ++ NL
           ++ "Authors: A. Author" ++ NL
           ++ "License: GPL-2.0" ++ NL
           ++ "Free: no" ++ NL
           ++ NL
    /\ printed Stderr t = "".
Proof.
  refine (driver_block (handle := string)
            (Driver_info "scope" (Version 1 2 3 "-rc1")
               ("An oscilloscope" ++ NL ++ "driver") "A. Author" "GPL-2.0" true)
            0 _ _).
  - vm_compute. discriminate.
  - vm_compute. discriminate.
Defined.

(** ** The URL buffer, further *)

Section Growth.

Context {L context handle : Type}.
Variable lib : opentmf L context handle.
Variable PACKAGE_VERSION : string.
Implicit Types (s : L) (t : list (event handle)) (ctx : context).

Abbreviation returns' := (@returns L handle _).

(** Between 1024 and 2048 bytes, a name below 2038 characters fits after
    the growth, and the size stays in that range. *)
Lemma grow_once (url_size : Z) (name : string) :
  url_size = 1024%Z \/ url_size = 2048%Z ->
  (10 + Z.of_nat (String.length name) < 2048)%Z ->
  (grow url_size name = 1024%Z \/ grow url_size name = 2048%Z)
  /\ (10 + Z.of_nat (String.length name) < grow url_size name)%Z.
Proof.
  intros Hsize Hlen. unfold grow, size_t.
  rewrite (Z.mod_small (10 + _)%Z) by lia.
  destruct (Z.geb_spec (10 + Z.of_nat (String.length name)) url_size);
    destruct Hsize as [-> | ->]; rewrite ?Z.mod_small by lia; lia.
Qed.

Hypothesis names_below_2038 : forall ctx s,
  Forall (fun n => String.length n < 2038)
    (snd (fst (opentmf_get_driver_list lib ctx s))).

Hypothesis texts_short : forall drv s,
  (Z.of_nat (String.length (description (opentmf_drv_get_info lib drv s)))
   <= INT_MAX)%Z
  /\ (Z.of_nat (String.length (authors (opentmf_drv_get_info lib drv s)))
      <= INT_MAX)%Z.

Lemma returns_driver_round_alone verbose ctx (name : string)
    url_size (url : string) :
  (10 + Z.of_nat (String.length name) < url_size)%Z ->
  returns' (driver_round lib verbose 0 ctx name url_size url) (fun _ => True).
Proof.
  intros H. unfold driver_round.
  eapply returns_bind; [apply returns_terminate_at; lia|].
  intros u Hu. cbv beta in Hu.
  assert (u = "") as -> by (destruct u; [reflexivity|simpl in Hu; lia]).
  eapply returns_bind; [apply returns_strcat; simpl; lia|].
  intros u' ->. eapply returns_bind; [apply returns_strcat; simpl; lia|].
  intros u' ->. eapply returns_bind with (P := fun _ => True).
  { intros s. unfold open.
    destruct (opentmf_open lib ctx (("" ++ "opentmf://") ++ name) s)
      as [[r h] s'].
    eexists (r, h), s', _. split; [reflexivity|exact I]. }
  intros [r drv] _.
  destruct (r =? OPENTMF_SUCCESS lib)%Z.
  - eapply returns_bind with
      (P := fun info =>
              (Z.of_nat (String.length (description info)) <= INT_MAX)%Z
              /\ (Z.of_nat (String.length (authors info)) <= INT_MAX)%Z).
    { intros s. exists (opentmf_drv_get_info lib drv s), s, [].
      split; [reflexivity|apply texts_short]. }
    intros info [Hd Ha].
    eapply returns_bind; [apply returns_show_driver; assumption|].
    intros _ _. eapply returns_bind with (P := fun _ => True).
    { unfold list_devices. cbn [Z.eqb]. apply returns_ret. exact I. }
    intros u _. eapply returns_bind with (P := fun _ => True);
      [|intros; apply returns_ret; exact I].
    intros s. exists tt, (opentmf_close lib drv s), [Call_close drv].
    split; [reflexivity|exact I].
  - eapply returns_bind with (P := fun _ => True);
      [apply returns_emit|intros; apply returns_ret; exact I].
Qed.

Lemma returns_drivers_loop_grown verbose ctx (names : list string) :
  Forall (fun n => String.length n < 2038) names ->
  forall url_size url,
  url_size = 1024%Z \/ url_size = 2048%Z ->
  returns' (drivers_loop lib verbose 0 ctx names url_size url)
    (fun x => fst x = 1024%Z \/ fst x = 2048%Z).
Proof.
  induction 1 as [|n names Hn _ IH]; intros url_size url Hsize.
  - apply returns_ret. exact Hsize.
  - cbn [drivers_loop].
    destruct (grow_once url_size n Hsize) as [Hg Hfit]; [lia|].
    eapply returns_bind;
      [apply returns_driver_round_alone; exact Hfit|].
    intros u _. apply IH. exact Hg.
Qed.

(** X15. Without [-d], driver names shorter than 2038 characters (and
    texts no longer than [INT_MAX]) never take a store past the end of
    the URL buffer: the one doubling per driver is then enough, the
    buffer never holds more than 2048 bytes, and [main] returns. *)
Theorem names_below_2038_fit argv verbose s0 s1 t1 :
  parse_options PACKAGE_VERSION
    (Getopt.getopt_long optstring options argv) 0 0 s0
  = Ret (verbose, 0%Z) s1 t1 ->
  exists status s' t, main lib PACKAGE_VERSION argv s0 = Ret status s' t.
Proof.
  intros Hopts.
  assert (R : returns'
                (bind (init lib) (fun '(r, ctx) =>
                   if negb (r =? OPENTMF_SUCCESS lib)%Z then
                     bind (eprintf ("Error initializing library: "
                                      ++ status_text lib r))
                       (fun _ => ret EXIT_FAILURE)
                   else
                     bind (list_drivers lib verbose 0 ctx) (fun status =>
                     bind (finalize lib ctx) (fun r =>
                       if negb (r =? OPENTMF_SUCCESS lib)%Z then
                         bind (eprintf ("Error finalizing library: "
                                          ++ status_text lib r))
                           (fun _ => ret EXIT_FAILURE)
                       else ret status))))
                (fun _ => True)).
  { eapply returns_bind with (P := fun _ => True).
    { intros s. unfold init. destruct (opentmf_init lib s) as [[r ctx] s'].
      exists (r, ctx), s', [Call_init r]. split; [reflexivity|exact I]. }
    intros [r ctx] _.
    destruct (negb (r =? OPENTMF_SUCCESS lib)%Z).
    { eapply returns_bind with (P := fun _ => True);
        [apply returns_emit|intros; apply returns_ret; exact I]. }
    eapply returns_bind with (P := fun _ => True).
    { unfold list_drivers.
      eapply returns_bind with
        (P := fun x => Forall (fun n => String.length n < 2038) (snd x)).
      { intros s. unfold get_driver_list.
        pose proof (names_below_2038 ctx s) as Hl.
        destruct (opentmf_get_driver_list lib ctx s) as [[r' l] s'].
        exists (r', l), s', [Call_get_driver_list r' l].
        split; [reflexivity|exact Hl]. }
      intros [r' l] Hl. cbn [snd] in Hl.
      destruct (r' =? OPENTMF_SUCCESS lib)%Z.
      - eapply returns_bind;
          [apply returns_drivers_loop_grown; [exact Hl|left; reflexivity]|].
        intros x _. eapply returns_bind with (P := fun _ => True).
        { intros s. unfold free_driver_list.
          destruct (opentmf_free_driver_list lib ctx l s) as [rf s'].
          exists rf, s', [Call_free_driver_list rf].
          split; [reflexivity|exact I]. }
        intros rf _. eapply returns_bind with (P := fun _ => True);
          [|intros; apply returns_ret; exact I].
        destruct (negb (rf =? OPENTMF_SUCCESS lib)%Z);
          [apply returns_emit|apply returns_ret; exact I].
      - eapply returns_bind with (P := fun _ => True);
          [apply returns_emit|intros; apply returns_ret; exact I]. }
    intros status _. eapply returns_bind with (P := fun _ => True).
    { intros s. unfold finalize. destruct (opentmf_exit lib ctx s) as [re s'].
      exists re, s', [Call_exit re]. split; [reflexivity|exact I]. }
    intros re _. destruct (negb (re =? OPENTMF_SUCCESS lib)%Z);
      [|apply returns_ret; exact I].
    eapply returns_bind with (P := fun _ => True);
      [apply returns_emit|intros; apply returns_ret; exact I]. }
  destruct (R s1) as (status & s' & t & E & _).
  exists status, s', (t1 ++ t)%list. unfold main.
  rewrite (bind_run _ _ _ _ _ _ Hopts). rewrite E. reflexivity.
Qed.

End Growth.

(** A library with the one driver [n], which opens. *)
Definition solo (n : string) : Sim.config :=
  Sim.Config 0 0 [Sim.plain n 0 []] 0.

Lemma solo_texts (n : string) (drv : string) (s : nat) :
  (Z.of_nat (String.length
               (description (opentmf_drv_get_info (Sim.library (solo n)) drv s)))
   <= INT_MAX)%Z
  /\ (Z.of_nat (String.length
                  (authors (opentmf_drv_get_info (Sim.library (solo n)) drv s)))
      <= INT_MAX)%Z.
Proof.
  cbn [Sim.library opentmf_drv_get_info].
  destruct (Sim.find_driver (solo n) drv) as [d|] eqn:E;
    [|split; vm_compute; discriminate].
  apply find_some in E. destruct E as [[<-|[]] _].
  split; vm_compute; discriminate.
Qed.

(** The witness: a name of 2037 letters takes the doubling and fits; one
    letter more and the store passes the end of the 2048 bytes. *)
Lemma name_of_2037_letters_fits :
  (exists status s' t,
      Sim.run (solo (letters 2037)) ["lsopentmf"; "-v"] = Ret status s' t)
  /\ grow 1024 (letters 2037) = 2048%Z
  /\ Sim.run (solo (letters 2038)) ["lsopentmf"; "-v"]
     = Undefined [Call_init 0; Call_get_driver_list 0 [letters 2038]].
Proof.
  split; [|split; vm_compute; reflexivity].
  refine (names_below_2038_fit (Sim.library (solo (letters 2037))) "0.1" _ _
            ["lsopentmf"; "-v"] 1 0 0 [] eq_refl).
  - intros ctx s. constructor; [vm_compute; reflexivity|constructor].
  - apply solo_texts.
Defined.

(** The bench is a library as [main_defined] asks for. *)
Lemma bench_run_defined :
  defined (Sim.run bench ["lsopentmf"; "-d"; "-v"; "-v"]).
Proof.
  refine (main_defined (Sim.library bench) "0.1" 2 _ _ _ _
            ["lsopentmf"; "-d"; "-v"; "-v"] 0).
  - intros ctx s. repeat constructor.
  - intros drv s. cbn [Sim.library opentmf_drv_get_device_list].
    destruct (Sim.find_driver bench drv) as [d|] eqn:E; [|constructor].
    apply find_some in E. destruct E as [[<-|[<-|[<-|[]]]] _];
      repeat constructor. vm_compute. discriminate.
  - intros drv s. cbn [Sim.library opentmf_drv_get_info].
    destruct (Sim.find_driver bench drv) as [d|] eqn:E;
      [|split; vm_compute; discriminate].
    apply find_some in E. destruct E as [[<-|[<-|[<-|[]]]] _];
      split; vm_compute; discriminate.
  - lia.
Defined.

(** ** Lists, further *)

Section More_lists.

Context {L context handle : Type}.
Variable lib : opentmf L context handle.
Variable PACKAGE_VERSION : string.
Implicit Types (s : L) (t : list (event handle)) (ctx : context).

Abbreviation OK3 := (OPENTMF_SUCCESS lib).

(** X16. With an empty driver list [main] opens nothing and prints
    nothing on standard output; it frees the list, reports a failure to
    free it on standard error without changing the status, finalizes the
    library and returns 0. *)
Theorem empty_driver_list argv verbose show_devices
    s0 s0' t0 ctx s1 s2 rf s3 s4 :
  parse_options PACKAGE_VERSION
    (Getopt.getopt_long optstring options argv) 0 0 s0
  = Ret (verbose, show_devices) s0' t0 ->
  opentmf_init lib s0' = (OK3, ctx, s1) ->
  opentmf_get_driver_list lib ctx s1 = (OK3, [], s2) ->
  opentmf_free_driver_list lib ctx [] s2 = (rf, s3) ->
  opentmf_exit lib ctx s3 = (OK3, s4) ->
  main lib PACKAGE_VERSION argv s0
  = Ret 0%Z s4
      (t0 ++ [ Call_init OK3;
               Call_get_driver_list OK3 [];
               Call_free_driver_list rf ]
          ++ (if (rf =? OK3)%Z then []
              else [Print Stderr ("Error freeing driver list: "
                                    ++ opentmf_get_status_str lib rf
                                    ++ " (" ++ fmt_d rf ++ ")" ++ NL)])
          ++ [Call_exit OK3])%list.
Proof.
  intros Hopts Hinit Hlist Hfree Hexit.
  rewrite (main_initialized _ _ _ _ _ _ _ _ _ _ Hopts Hinit).
  unfold after_init, list_drivers.
  unfold bind at 1. unfold bind at 1. unfold get_driver_list.
  rewrite Hlist, Z.eqb_refl. cbn [drivers_loop].
  unfold bind at 1. cbn [ret prepend app].
  unfold bind at 1. unfold free_driver_list. rewrite Hfree.
  destruct (rf =? OK3)%Z; cbn [negb];
    cbv [bind eprintf emit ret prepend finalize];
    rewrite Hexit; cbv beta iota; rewrite Z.eqb_refl; cbn [negb];
    rewrite <- ?app_assoc; cbn [app]; reflexivity.
Qed.

(** X17. When the device list of a driver is retrieved and the loop over
    it returns, the list is freed once, after the last device and before
    the driver is closed by the caller; a failure to free it costs one
    line on standard error and nothing else. *)
Theorem device_list_is_freed verbose show_devices ctx (drv : handle)
    url_size (url : string) s (l : list string) s1 url2 s2 t2 rf s3 :
  show_devices <> 0%Z ->
  opentmf_drv_get_device_list lib drv s = (OK3, l, s1) ->
  devices_loop lib verbose ctx url_size (String.length url) l url s1
  = Ret url2 s2 t2 ->
  opentmf_drv_free_device_list lib drv l s2 = (rf, s3) ->
  list_devices lib verbose show_devices ctx drv url_size url s
  = Ret url2 s3
      ([Call_get_device_list drv OK3 l] ++ t2
         ++ [Call_free_device_list drv rf]
         ++ (if (rf =? OK3)%Z then []
             else [Print Stderr ("Error freeing device list: "
                                   ++ opentmf_get_status_str lib rf
                                   ++ " (" ++ fmt_d rf ++ ")" ++ NL)]))%list.
Proof.
  intros Hd Hlist Hloop Hfree. unfold list_devices.
  apply Z.eqb_neq in Hd. rewrite Hd.
  unfold bind at 1. unfold drv_get_device_list. rewrite Hlist, Z.eqb_refl.
  unfold bind at 1. rewrite Hloop.
  unfold bind at 1. unfold drv_free_device_list. rewrite Hfree.
  destruct (rf =? OK3)%Z; cbn [negb];
    cbv [bind eprintf emit ret prepend];
    rewrite <- ?app_assoc; cbn [app]; rewrite ?app_nil_r; reflexivity.
Qed.

End More_lists.

Lemma no_drivers_at_all :
  Sim.run (Sim.Config 0 0 [] 0) ["lsopentmf"; "-d"; "-v"]
  = Ret 0%Z 0 [Call_init 0; Call_get_driver_list 0 []; Call_free_driver_list 0;
               Call_exit 0].
Proof.
  exact (empty_driver_list (Sim.library (Sim.Config 0 0 [] 0)) "0.1"
           ["lsopentmf"; "-d"; "-v"] 1 1 0 0 [] tt 0 0 0 0 0
           eq_refl eq_refl eq_refl eq_refl eq_refl).
Defined.

Lemma devices_of_a_are_freed :
  list_devices (Sim.library bench) 0 1 tt "opentmf://a" 1024 "opentmf://a" 1
  = Ret "opentmf://a/0" 1
      [ Call_get_device_list "opentmf://a" 0 ["/0"];
        Call_open "opentmf://a/0" 0 "opentmf://a/0";
        Print Stdout ("  /0" ++ NL);
        Call_close "opentmf://a/0";
        Call_free_device_list "opentmf://a" 0 ].
Proof.
  refine (device_list_is_freed (Sim.library bench) 0 1 tt "opentmf://a"
            1024 "opentmf://a" 1 ["/0"] 1 "opentmf://a/0" 1 _ 0 1
            _ eq_refl eq_refl eq_refl).
  discriminate.
Defined.
